(** * web-building-blocks: the hex map component, the tiered cache and the
      session storage wrapper

    A shallow embedding of [HexMap] (geometry, draw order, data binding),
    [TieredCache] and [StorageItem], with the properties their
    specification states about them.

    Modelling conventions.
    - Axial coordinates [q], [r] are integers ([Z]).  JavaScript's [%] on
      integers is the truncating remainder, [Z.rem].
    - Pixel quantities ([size], [cadence], the pitches, [width], [height])
      are JavaScript numbers; they are modelled as real numbers, so rounding
      of the double arithmetic is not modelled.
    - The numbers of the dataset ([count], [value]) are modelled as
      integers; nothing is computed from them but their decimal string.
    - Objects used as dictionaries are finite maps with string keys
      ([gmap string _]); an object whose iteration order matters
      ([Object.entries]) is an association list in iteration order.
      Properties inherited from [Object.prototype] are not modelled.
    - A call that may throw returns a [Result]; where the state matters
      after a throw, the state is returned next to it. *)

From Stdlib Require Import ZArith Reals Lra List Ascii String.
From stdpp Require Import gmap strings list fin_maps pretty sorting.

Local Open Scope Z_scope.

(** ** Geometry engine *)

Module Geometry.

(** The geometric fields of a [HexMap] instance. *)
Record Metrics := {
  size : R;
  cadence : R;
  rotated : bool;
  even : bool;
  mainPitch : R;
  crossPitch : R;
  height : R;
  width : R
}.

(** The fields as the constructor leaves them: [size = 90],
    [cadence = size * cos (PI / 6)], pointy-topped, odd offset. *)
Definition constructed : Metrics :=
  let size := 90%R in
  let cadence := (size * cos (PI / 6))%R in
  {| size := size;
     cadence := cadence;
     rotated := false;
     even := false;
     mainPitch := (cadence * 2)%R;
     crossPitch := (size * 3 / 2)%R;
     height := 0%R;
     width := 0%R |}.

Definition crossDimension (m : Metrics) (n : R) : R :=
  (crossPitch m * (n - 1))%R.

Definition mainDimension (m : Metrics) (n : R) : R :=
  (mainPitch m * (n - 1 + 0.5))%R.

(** [coordinates(q, r)]. *)
Definition coordinates (m : Metrics) (q r : Z) : R * R :=
  let offsetTest := if even m then 0 else 1 in
  let qOffset :=
    if negb (rotated m) && (Z.abs (Z.rem r 2) =? offsetTest)
    then cadence m else 0%R in
  let rOffset :=
    if rotated m && (Z.abs (Z.rem q 2) =? offsetTest)
    then cadence m else 0%R in
  (((if rotated m then crossPitch m else mainPitch m) * IZR q + qOffset)%R,
   (height m - (if rotated m then mainPitch m else crossPitch m) * IZR r
    - rOffset)%R).

(** The assignments at the end of [loadLayout]: orientation, offset parity,
    and the chart's width and height from the column and row counts. *)
Definition withLayout (m : Metrics) (rot ev : bool) (nQuols nRows : R) : Metrics :=
  {| size := size m;
     cadence := cadence m;
     rotated := rot;
     even := ev;
     mainPitch := mainPitch m;
     crossPitch := crossPitch m;
     height := if rot then mainDimension m nRows else crossDimension m nRows;
     width := if rot then crossDimension m nQuols else mainDimension m nQuols |}.

(** The same, for the orientation and parity alone. *)
Definition withOrientation (m : Metrics) (rot ev : bool) : Metrics :=
  {| size := size m;
     cadence := cadence m;
     rotated := rot;
     even := ev;
     mainPitch := mainPitch m;
     crossPitch := crossPitch m;
     height := height m;
     width := width m |}.

(** The projection as the specification words it; [mod] is read as the
    mathematical (floored) modulus. *)
Definition offsetTest_spec (evenOffset : bool) : Z :=
  if evenOffset then 0 else 1.

Definition project_spec (m : Metrics) (q r : Z) : R * R :=
  if rotated m then
    let rOffset :=
      if Z.abs (q mod 2) =? offsetTest_spec (even m) then cadence m else 0%R in
    ((crossPitch m * IZR q)%R, (height m - mainPitch m * IZR r - rOffset)%R)
  else
    let qOffset :=
      if Z.abs (r mod 2) =? offsetTest_spec (even m) then cadence m else 0%R in
    ((mainPitch m * IZR q + qOffset)%R, (height m - crossPitch m * IZR r)%R).

End Geometry.

(** ** JavaScript values and exceptions *)

Module Js.

(** The values a hex context holds: [string | number]. *)
Inductive Val :=
  | VNum (n : Z)
  | VStr (s : string).

Inductive Error :=
  | ReferenceError (msg : string)
  | TypeError (msg : string)
  | SyntaxError (msg : string)
  | DOMException (name : string).

(** The outcome of a call that may throw. *)
Inductive Result (A : Type) :=
  | Ok (a : A)
  | Throw (e : Error).
Arguments Ok {A} a.
Arguments Throw {A} e.

(** Numbers that may be infinite: what [Math.min] and [Math.max] fold over
    when the bounds start at [Infinity] and [-Infinity]. *)
Inductive Num :=
  | NaN
  | NegInfinity
  | Fin (z : Z)
  | Infinity.

Definition Math_min (a b : Num) : Num :=
  match a, b with
  | NaN, _ | _, NaN => NaN
  | NegInfinity, _ | _, NegInfinity => NegInfinity
  | Infinity, x | x, Infinity => x
  | Fin x, Fin y => Fin (Z.min x y)
  end.

Definition Math_max (a b : Num) : Num :=
  match a, b with
  | NaN, _ | _, NaN => NaN
  | Infinity, _ | _, Infinity => Infinity
  | NegInfinity, x | x, NegInfinity => x
  | Fin x, Fin y => Fin (Z.max x y)
  end.

Definition add (a b : Num) : Num :=
  match a, b with
  | NaN, _ | _, NaN => NaN
  | Infinity, NegInfinity | NegInfinity, Infinity => NaN
  | Infinity, _ | _, Infinity => Infinity
  | NegInfinity, _ | _, NegInfinity => NegInfinity
  | Fin x, Fin y => Fin (x + y)
  end.

Definition neg (a : Num) : Num :=
  match a with
  | NaN => NaN
  | NegInfinity => Infinity
  | Fin x => Fin (- x)
  | Infinity => NegInfinity
  end.

Definition sub (a b : Num) : Num := add a (neg b).

(** [Array.prototype.toSorted(cmp)]: the sort is stable, and [a] comes before
    [b] when [cmp a b < 0].  For a consistent comparator the result is
    unique; it is computed here by insertion from the right, which keeps
    the source order of elements that compare equal. *)
Section Sorting.
Context {A : Type} (cmp : A -> A -> Z).

Fixpoint insertSorted (x : A) (l : list A) : list A :=
  match l with
  | [] => [x]
  | y :: l' =>
      if cmp x y <=? 0 then x :: y :: l' else y :: insertSorted x l'
  end.

Definition toSorted (l : list A) : list A := foldr insertSorted [] l.
End Sorting.

End Js.

(** ** Layout model and draw order *)

Module Layout.
Import Js.

(** One entry of [hexes]: the mandatory axial coordinates and the other
    context fields. *)
Record HexDefinition := {
  q : Z;
  r : Z;
  props : gmap string Val
}.

(** The HexJSON document; [hexes] lists the entries in the order
    [Object.entries] yields them (keys are unique in an object). *)
Record HexJson := {
  layout : string;
  hexes : list (string * HexDefinition)
}.

(** [{ key, ...definition }]: a field named [key] of the definition
    overrides the entry's key. *)
Definition withKey (e : string * HexDefinition) : HexDefinition :=
  {| q := q e.2; r := r e.2; props := props e.2 ∪ {[ "key" := VStr e.1 ]} |}.

(** The comparator of the [hexes] getter. *)
Definition compareHexes (a b : HexDefinition) : Z :=
  if r a <? r b then 1
  else if r a >? r b then -1
  else if q a <? q b then -1
  else if q a >? q b then 1
  else 0.

(** The axial coordinate of a cell, and the draw order as the specification
    words it: row descending, then column ascending. *)
Definition coordOf (d : HexDefinition) : Z * Z := (q d, r d).

Definition drawnBefore (a b : HexDefinition) : Prop :=
  r a > r b \/ (r a = r b /\ q a < q b).

(** The [hexes] getter; [None] is an undefined [hexJson]. *)
Definition get_hexes (hexJson : option HexJson) : Result (list HexDefinition) :=
  match hexJson with
  | None => Throw (ReferenceError "GeoJSON layout not defined")
  | Some j => Ok (toSorted compareHexes (map withKey (hexes j)))
  end.

(** The corners of the hexmap. *)
Record Corners := {
  min : Num * Num;
  max : Num * Num
}.

Definition initialCorners : Corners :=
  {| min := (Infinity, Infinity); max := (NegInfinity, NegInfinity) |}.

Definition cornerStep (acc : Corners) (d : HexDefinition) : Corners :=
  {| min := (Math_min (min acc).1 (Fin (q d)), Math_min (min acc).2 (Fin (r d)));
     max := (Math_max (max acc).1 (Fin (q d)), Math_max (max acc).2 (Fin (r d))) |}.

(** [/q$/] and [/^even/] on the layout token. *)
Fixpoint endsWithQ (s : string) : bool :=
  match s with
  | EmptyString => false
  | String c EmptyString => bool_decide (c = "q"%char)
  | String _ s' => endsWithQ s'
  end.

Definition startsWithEven (s : string) : bool := String.prefix "even" s.

(** What [loadLayout] derives from the fetched document, up to the row and
    column counts. *)
Record Loaded := {
  hexJson : HexJson;
  rotated : bool;
  even : bool;
  corners : Corners;
  nQuols : Num;
  nRows : Num
}.

(** [loadLayout], from the point where the response body has been read;
    [None] is an undefined body. *)
Definition loadLayout (body : option HexJson) : Result Loaded :=
  match body with
  | None => Throw (ReferenceError "Not a HexJson layout")
  | Some j =>
      let corners := fold_left cornerStep (map snd (hexes j)) initialCorners in
      Ok {| hexJson := j;
            rotated := endsWithQ (layout j);
            even := startsWithEven (layout j);
            corners := corners;
            nQuols := add (sub (max corners).1 (min corners).1) (Fin 1);
            nRows := add (sub (max corners).2 (min corners).2) (Fin 1) |}
  end.

(** A sample document: five cells listed out of draw order, two of them at
    the same coordinate. *)
Definition sampleDefinition (n : string) (q0 r0 : Z) : HexDefinition :=
  {| q := q0; r := r0; props := {[ "n" := VStr n ]} |}.

Definition sampleLayout : HexJson :=
  {| layout := "odd-r";
     hexes := [ ("a", sampleDefinition "Alpha" 1 0);
                ("b", sampleDefinition "Bravo" 0 2);
                ("c", sampleDefinition "Charlie" (-1) 2);
                ("d", sampleDefinition "Delta" 1 0);
                ("e", sampleDefinition "Echo" 0 1) ] |}.

End Layout.

(** ** Render and data-binding engine *)

Module Binding.
Import Js.

(** [toString()] of a context value. *)
Definition toString (v : Val) : string :=
  match v with
  | VNum n => pretty n
  | VStr s => s
  end.

(** A rendered hex: the [<g class="hex">] element built by [generateHex],
    with its [<text>] and [<title>] children (every group [generateHex]
    builds has both).  [transform] is the pair of the
    [translate(x y)] attribute; [attributes] are the other attributes of the
    group ([data-key] and [data-value] are what [dataset.key] and
    [dataset.value] read and write). *)
Record HexContainer := {
  transform : R * R;
  attributes : gmap string string;
  context : gmap string Val;
  text : string;
  title : string;
  style : gmap string string
}.

(** The dataset: [Record<string, Record<string, number>>]. *)
Abbreviation Dataset := (gmap string (gmap string Z)).

(** The state of one component instance.  [shadowRoot] lists the [g.hex]
    elements of the shadow tree in document order ([None]: no shadow root
    attached).  [isConnected] is the DOM's own flag of the element and
    [timeouts] the host's queue of pending [setTimeout] calls, each with the
    callback [() => this._updateHexes()] and the delay in milliseconds. *)
Record HexMap := {
  metrics : Geometry.Metrics;
  data : option Dataset;
  shadowRoot : option (list HexContainer);
  labelSpec : gmap string Val -> string;
  titleSpec : gmap string Val -> string;
  styleSpec : gmap string Val -> list (string * string);
  connected : bool;
  isConnected : bool;
  timeouts : list Z
}.

Definition set_data_field (d : option Dataset) (hm : HexMap) : HexMap :=
  {| metrics := metrics hm; data := d; shadowRoot := shadowRoot hm;
     labelSpec := labelSpec hm; titleSpec := titleSpec hm;
     styleSpec := styleSpec hm; connected := connected hm;
     isConnected := isConnected hm; timeouts := timeouts hm |}.

Definition set_shadowRoot (sr : option (list HexContainer)) (hm : HexMap) : HexMap :=
  {| metrics := metrics hm; data := data hm; shadowRoot := sr;
     labelSpec := labelSpec hm; titleSpec := titleSpec hm;
     styleSpec := styleSpec hm; connected := connected hm;
     isConnected := isConnected hm; timeouts := timeouts hm |}.

Definition set_connected (c : bool) (hm : HexMap) : HexMap :=
  {| metrics := metrics hm; data := data hm; shadowRoot := shadowRoot hm;
     labelSpec := labelSpec hm; titleSpec := titleSpec hm;
     styleSpec := styleSpec hm; connected := c;
     isConnected := isConnected hm; timeouts := timeouts hm |}.

Definition set_isConnected (c : bool) (hm : HexMap) : HexMap :=
  {| metrics := metrics hm; data := data hm; shadowRoot := shadowRoot hm;
     labelSpec := labelSpec hm; titleSpec := titleSpec hm;
     styleSpec := styleSpec hm; connected := connected hm;
     isConnected := c; timeouts := timeouts hm |}.

Definition set_timeouts (ts : list Z) (hm : HexMap) : HexMap :=
  {| metrics := metrics hm; data := data hm; shadowRoot := shadowRoot hm;
     labelSpec := labelSpec hm; titleSpec := titleSpec hm;
     styleSpec := styleSpec hm; connected := connected hm;
     isConnected := isConnected hm; timeouts := ts |}.

Definition set_metrics (m : Geometry.Metrics) (hm : HexMap) : HexMap :=
  {| metrics := m; data := data hm; shadowRoot := shadowRoot hm;
     labelSpec := labelSpec hm; titleSpec := titleSpec hm;
     styleSpec := styleSpec hm; connected := connected hm;
     isConnected := isConnected hm; timeouts := timeouts hm |}.

(** [setTimeout(() => this._updateHexes(), delay)]. *)
Definition setTimeout (delay : Z) (hm : HexMap) : HexMap :=
  set_timeouts (timeouts hm ++ [delay]) hm.

(** [hex.style.setProperty(k, v)]: an empty value removes the property.
    Parsing and validation of the value by the style engine are not
    modelled. *)
Definition setProperty (st : gmap string string) (kv : string * string)
  : gmap string string :=
  if decide (kv.2 = "") then delete kv.1 st else <[kv.1 := kv.2]> st.

(** [hex.dataset.key]: reading an absent attribute gives [undefined], which
    as a property key is the string ["undefined"]. *)
Definition datasetKey (hex : HexContainer) : string :=
  default "undefined" (attributes hex !! "data-key").

(** [{ value: 0, count: 0, ...this.data[key] }]. *)
Definition withDefaults (entry : option (gmap string Z)) : gmap string Z :=
  default ∅ entry ∪ {[ "value" := 0; "count" := 0 ]}.

(** Reading a field of the object built by [withDefaults]; the field is
    always present there (lemma [withDefaults_lookup]). *)
Definition field (o : gmap string Z) (k : string) : Z := default 0 (o !! k).

(** The body of the [for] loop of [_updateHexes]. *)
Definition updateHex (hm : HexMap) (d : Dataset) (hex : HexContainer)
  : HexContainer :=
  let key := datasetKey hex in
  let o := withDefaults (d !! key) in
  let count := field o "count" in
  let value := field o "value" in
  let context' :=
    <["value" := VNum value]> (<["count" := VNum count]> (context hex)) in
  {| transform := transform hex;
     attributes := <["data-value" := toString (VNum value)]> (attributes hex);
     context := context';
     text := text hex;
     title := titleSpec hm context';
     style := foldl setProperty (style hex) (styleSpec hm context') |}.

(** [_updateHexes()]. *)
Definition _updateHexes (hm : HexMap) : HexMap :=
  match data hm with
  | None => hm
  | Some d =>
      if negb (connected hm) then setTimeout 250 hm
      else set_shadowRoot (map (updateHex hm d) <$> shadowRoot hm) hm
  end.

(** The [data] setter. *)
Definition set_data (newValue : option Dataset) (hm : HexMap) : HexMap :=
  _updateHexes (set_data_field newValue hm).

(** The host runs the oldest pending timeout. *)
Definition fireTimeout (hm : HexMap) : HexMap :=
  match timeouts hm with
  | [] => hm
  | _ :: rest => _updateHexes (set_timeouts rest hm)
  end.

(** What a bind leaves alone in a rendered hex: its position, label and
    attributes other than [data-value], the context fields other than
    [count] and [value], and the style properties [styleSpec] does not
    name. *)
Definition sameGroup (hm : HexMap) (hex hex' : HexContainer) : Prop :=
  transform hex' = transform hex
  /\ text hex' = text hex
  /\ datasetKey hex' = datasetKey hex
  /\ (∀ k, k <> "data-value" -> attributes hex' !! k = attributes hex !! k)
  /\ (∀ k, k <> "count" -> k <> "value" -> context hex' !! k = context hex !! k)
  /\ (∀ k, k ∉ (styleSpec hm (context hex')).*1 -> style hex' !! k = style hex !! k).

(** The context object of a rendered hex: the object [{ key, ...definition }]
    with its coordinates. *)
Definition contextOf (d : Layout.HexDefinition) : gmap string Val :=
  <["q" := VNum (Layout.q d)]> (<["r" := VNum (Layout.r d)]> (Layout.props d)).

(** [generateHex(x, y, context)]; [context.key] is present in every object
    the [hexes] getter builds. *)
Definition generateHex (hm : HexMap) (xy : R * R) (ctx : gmap string Val)
  : HexContainer :=
  {| transform := xy;
     attributes :=
       {[ "class" := "hex"; "clip-path" := "url(#clip)"; "tabindex" := "0";
          "data-key" := from_option toString "undefined" (ctx !! "key") ]};
     context := ctx;
     text := labelSpec hm ctx;
     title := titleSpec hm ctx;
     style := ∅ |}.

(** [_renderHexes()]: the groups, and the state after the call of
    [_updateHexes] that ends it (the groups are not in the shadow tree
    yet). *)
Definition _renderHexes (hexes : list Layout.HexDefinition) (hm : HexMap)
  : list HexContainer * HexMap :=
  (map (fun d => generateHex hm
                   (Geometry.coordinates (metrics hm) (Layout.q d) (Layout.r d))
                   (contextOf d))
       hexes,
   _updateHexes hm).

(** The host inserts the element: [connectedCallback] starts and suspends at
    [await this.loadLayout()]. *)
Definition connectedCallback_begin (hm : HexMap) : HexMap :=
  set_isConnected true hm.

(** [connectedCallback] from the point where [loadLayout] has returned
    [loaded], with the state it ends in.  [attachShadow] throws when the
    element already has a shadow root.  With an empty layout the row and
    column counts are [-Infinity], and so are the width and height, which
    the real numbers of [Metrics] do not hold: they are left as they were.
    No hex is rendered in that case, so no coordinate of a hex is computed
    from them. *)
Definition connectedCallback_resume (loaded : Layout.Loaded) (hm : HexMap)
  : Result unit * HexMap :=
  let m :=
    match Layout.nQuols loaded, Layout.nRows loaded with
    | Fin c, Fin w =>
        Geometry.withLayout (metrics hm) (Layout.rotated loaded)
          (Layout.even loaded) (IZR c) (IZR w)
    | _, _ =>
        Geometry.withOrientation (metrics hm) (Layout.rotated loaded)
          (Layout.even loaded)
    end in
  let hm := set_metrics m hm in
  match shadowRoot hm with
  | Some _ => (Throw (DOMException "NotSupportedError"), hm)
  | None =>
      let hm := set_shadowRoot (Some []) hm in
      match Layout.get_hexes (Some (Layout.hexJson loaded)) with
      | Throw e => (Throw e, hm)
      | Ok hexes =>
          let '(groups, hm) := _renderHexes hexes hm in
          (Ok tt, set_connected true (set_shadowRoot (Some groups) hm))
      end
  end.

(** The whole of [connectedCallback], when nothing else runs while the
    layout loads; [body] is the body of the response. *)
Definition connectedCallback (body : option Layout.HexJson) (hm : HexMap)
  : Result unit * HexMap :=
  let hm := connectedCallback_begin hm in
  match Layout.loadLayout body with
  | Throw e => (Throw e, hm)
  | Ok loaded => connectedCallback_resume loaded hm
  end.

(** [disconnectedCallback()], run by the host when it removes the
    element. *)
Definition disconnectedCallback (hm : HexMap) : HexMap :=
  set_connected false (set_isConnected false hm).

(** The default mappers the constructor installs.  The default label is
    [(ctx.n as string).slice(0, 3)]; it is given here for a context whose
    [n] is a string (the source throws a [TypeError] otherwise, which this
    total function does not model). *)
Definition defaultLabelSpec (ctx : gmap string Val) : string :=
  match ctx !! "n" with
  | Some (VStr s) => String.substring 0 3 s
  | _ => ""
  end.

Definition defaultTitleSpec (ctx : gmap string Val) : string :=
  from_option toString "undefined" (ctx !! "n").

Definition defaultStyleSpec (ctx : gmap string Val) : list (string * string) :=
  [("fill", "#333")].

(** The instance the constructor builds when the element carries no [data]
    attribute. *)
Definition constructed : HexMap :=
  {| metrics := Geometry.constructed;
     data := None;
     shadowRoot := None;
     labelSpec := defaultLabelSpec;
     titleSpec := defaultTitleSpec;
     styleSpec := defaultStyleSpec;
     connected := false;
     isConnected := false;
     timeouts := [] |}.



(** A sample dataset: the entry of [a] lacks [value], and [b] has no
    entry. *)
Definition sampleData : Dataset :=
  {[ "a" := {[ "count" := 5 ]}; "z" := {[ "count" := 1; "value" := 2 ]} ]}.


(** A dataset is assigned to a fresh instance: the bind is deferred. *)
Definition pendingBind : HexMap := set_data (Some sampleData) constructed.

(** The host inserts the element and, while the layout is still loading,
    removes it again. *)
Definition tornDown : HexMap :=
  disconnectedCallback (connectedCallback_begin pendingBind).

(** The load of the sample layout then completes and [connectedCallback]
    resumes. *)
Definition resumedAfterTearDown : Result unit * HexMap :=
  match Layout.loadLayout (Some Layout.sampleLayout) with
  | Ok loaded => connectedCallback_resume loaded tornDown
  | Throw e => (Throw e, tornDown)
  end.

(** The end-to-end example of the specification: a layout of one cell is
    connected, then a dataset is assigned. *)
Definition endToEndLayout : Layout.HexJson :=
  {| Layout.layout := "odd-r";
     Layout.hexes := [ ("1,1", Layout.sampleDefinition "Alpha" 1 1) ] |}.

Definition endToEndConnected : Result unit * HexMap :=
  connectedCallback (Some endToEndLayout) constructed.

Definition endToEndBound : HexMap :=
  set_data (Some {[ "1,1" := {[ "count" := 5; "value" := 2 ]} ]})
    endToEndConnected.2.

End Binding.

(** ** Tiered cache *)

Module TieredCache.
Import Js.

Section Cache.

(** The type of the cached values. *)
Context {T : Type}.

(** What the descent of [#get] passes from level to level: a nested mapping
    ([TieredLookupResult]), a cached value, or [undefined]. *)
#[warnings="-register-all"] Inductive Value :=
  | Undefined
  | Leaf (v : T)
  | Object (m : gmap string Value).

(** [leafGet v k] is [v[k]] for a cached value [v]: what it yields depends on
    the type of the cached values. *)
Context (leafGet : T -> string -> Result Value).

(** The loader function and the splitter of the configuration. *)
Context (loadFunction : string -> Result (gmap string Value)).
Context (splitter : string -> list string).

(** The cache: [#data], and the log of the keys [#loadFunction] was called
    with (oldest first). *)
Record Cache := {
  data : gmap string Value;
  loads : list string
}.

(** The cache the constructor builds. *)
Definition empty : Cache := {| data := ∅; loads := [] |}.

(** [a[k]]: reading a property of [undefined] throws, and a mapping
    answers [undefined] for a key it lacks. *)
Definition index (a : Value) (k : string) : Result Value :=
  match a with
  | Undefined =>
      Throw (TypeError "Cannot read properties of undefined")
  | Leaf v => leafGet v k
  | Object m => Ok (default Undefined (m !! k))
  end.

(** The descent [levels.reduce((a, k) => a[k], start)]; an exception ends
    it. *)
Definition descend (levels : list string) (start : Result Value) : Result Value :=
  foldl
    (fun acc k => match acc with Ok a => index a k | Throw e => Throw e end)
    start levels.

(** [#get(levels)]: the descent from [this.#data]. *)
Definition get (levels : list string) (c : Cache) : Result Value :=
  descend levels (Ok (Object (data c))).

(** [#loader(key)]: the loaded mapping is spread over the cached one. *)
Definition loader (key : string) (c : Cache) : Result unit * Cache :=
  match loadFunction key with
  | Throw e => (Throw e, {| data := data c; loads := loads c ++ [key] |})
  | Ok loaded =>
      (Ok tt, {| data := loaded ∪ data c; loads := loads c ++ [key] |})
  end.

(** [lookupOne(key)]. *)
Definition lookupOne (key : string) (c : Cache) : Result Value * Cache :=
  let levels := splitter key in
  match get levels c with
  | Ok v => (Ok v, c)
  | Throw (TypeError msg) =>
      match loader key c with
      | (Throw e, c') => (Throw e, c')
      | (Ok _, c') => (get levels c', c')
      end
  | Throw e => (Throw e, c)
  end.



End Cache.

(** The default splitter, [(k) => k.trim().split(/\s+/)]: strings are byte
    strings here and white space is the ASCII white space. *)
Definition isWhite (c : ascii) : bool :=
  let n := nat_of_ascii c in
  ((9 <=? n)%nat && (n <=? 13)%nat) || (n =? 32)%nat.

Fixpoint trimStart (s : string) : string :=
  match s with
  | String c s' => if isWhite c then trimStart s' else s
  | EmptyString => EmptyString
  end.

Definition trim (s : string) : string :=
  String.rev (trimStart (String.rev (trimStart s))).

(** [s.split(/\s+/)]; [acc] holds the piece being read, reversed, and [sep]
    is set while a run of white space is being skipped. *)
Fixpoint splitWhite (sep : bool) (acc : string) (s : string) : list string :=
  match s with
  | EmptyString => [String.rev acc]
  | String c s' =>
      if isWhite c then
        if sep then splitWhite true acc s'
        else String.rev acc :: splitWhite true EmptyString s'
      else splitWhite false (String c acc) s'
  end.

Definition defaultSplitter (k : string) : list string :=
  splitWhite false EmptyString (trim k).

(** A sample cache of [string[]] values.  Indexing a cached array with a
    key level yields [undefined] in the samples (no level is an array index
    or a property of arrays). *)
Definition sampleLeafGet (v : list string) (k : string)
  : Result (@Value (list string)) := Ok Undefined.

(** A sample loader: a file per first level.  The file of [a] holds the
    code [b] only, the file of [e] is an empty mapping, and the file of any
    other first level holds nothing at all. *)
Definition sampleLoader (key : string)
  : Result (gmap string (@Value (list string))) :=
  match defaultSplitter key with
  | "a" :: _ => Ok {[ "a" := Object {[ "b" := Leaf ["Bee"] ]} ]}
  | "e" :: _ => Ok {[ "e" := Object ∅ ]}
  | _ => Ok ∅
  end.

Definition sampleLookupOne (key : string) (c : @Cache (list string))
  : Result (@Value (list string)) * @Cache (list string) :=
  lookupOne sampleLeafGet sampleLoader defaultSplitter key c.

End TieredCache.

(** ** Session storage item *)

Module StorageItem.
Import Js.

Section Storage.

(** The values handed to [set] and returned by [get], with the host's
    [JSON.stringify] ([None]: it returns [undefined]) and [JSON.parse]. *)
Context {Json : Type}.
Context (JSON_stringify : Json -> option string).
Context (JSON_parse : string -> Result Json).

(** [globalThis.sessionStorage]. *)
Abbreviation Storage := (gmap string string).

Record StorageItem := { key : string }.

(** The constructor. *)
Definition new (k : string) : Result StorageItem :=
  if decide (k = "") then Throw (SyntaxError "No key provided to StorageItem")
  else Ok {| key := k |}.

(** [setItem] stores the string conversion of its argument; storage quota
    is not modelled. *)
Definition set (it : StorageItem) (data : Json) (st : Storage) : Storage :=
  <[key it := default "undefined" (JSON_stringify data)]> st.

Definition get (it : StorageItem) (st : Storage) : Result Json :=
  match st !! key it with
  | None => Throw (ReferenceError "Raw data not set")
  | Some data =>
      if decide (data = "") then Throw (ReferenceError "Raw data not set")
      else JSON_parse data
  end.

Definition clear (it : StorageItem) (st : Storage) : Storage :=
  delete (key it) st.

End Storage.

(** A fragment of JSON for the samples: [null], the booleans and the
    integers, with their JSON texts. *)
Inductive SampleJson :=
  | JNull
  | JBool (b : bool)
  | JNum (n : Z).

Definition sampleStringify (v : SampleJson) : option string :=
  Some match v with
       | JNull => "null"
       | JBool true => "true"
       | JBool false => "false"
       | JNum n => pretty n
       end.

Definition digitOf (c : ascii) : option Z :=
  let n := Z.of_nat (nat_of_ascii c) in
  if (48 <=? n) && (n <=? 57) then Some (n - 48) else None.

Fixpoint parseDigits (acc : Z) (s : string) : option Z :=
  match s with
  | EmptyString => Some acc
  | String c s' =>
      match digitOf c with
      | Some d => parseDigits (10 * acc + d) s'
      | None => None
      end
  end.

Definition parseInteger (s : string) : option Z :=
  match s with
  | EmptyString => None
  | String c s' =>
      if decide (c = "-"%char) then
        if decide (s' = "") then None else Z.opp <$> parseDigits 0 s'
      else parseDigits 0 s
  end.

Definition sampleParse (s : string) : Result SampleJson :=
  if decide (s = "null") then Ok JNull
  else if decide (s = "true") then Ok (JBool true)
  else if decide (s = "false") then Ok (JBool false)
  else match parseInteger s with
       | Some n => Ok (JNum n)
       | None => Throw (SyntaxError "Unexpected token")
       end.

End StorageItem.

(** ** The view box *)

Module Viewport.
Import Geometry.

(** The padding around the chart, by orientation. *)
Definition padding (m : Metrics) : R * R :=
  if rotated m then ((size m * 1.5)%R, (cadence m * 1.5)%R)
  else ((cadence m * 1.5)%R, (size m * 1.5)%R).

(** [originShift]: the projection of the corner (least column, greatest
    row). *)
Definition originShift (m : Metrics) (qMin rMax : Z) : R * R :=
  coordinates m qMin rMax.

(** The four numbers of the [viewBox] attribute: least x, least y, width and
    height. *)
Definition viewBox (m : Metrics) (qMin rMax : Z) : R * R * R * R :=
  let p := padding m in
  let o := originShift m qMin rMax in
  ((o.1 - p.1)%R, (o.2 - p.2)%R,
   (width m + 2 * p.1)%R, (height m + 2 * p.2)%R).

(** A point lies in a view box. *)
Definition inViewBox (vb : R * R * R * R) (xy : R * R) : Prop :=
  (vb.1.1.1 <= xy.1 <= vb.1.1.1 + vb.1.2)%R
  /\ (vb.1.1.2 <= xy.2 <= vb.1.1.2 + vb.2)%R.

(** The relations the constructor sets up between the metrics; the size is
    positive and so is the cadence. *)
Definition consistent (m : Metrics) : Prop :=
  (0 < size m)%R
  /\ cadence m = (size m * cos (PI / 6))%R
  /\ mainPitch m = (cadence m * 2)%R
  /\ crossPitch m = (size m * 3 / 2)%R.

(** The squared distance of two points. *)
Definition dist2 (a b : R * R) : R :=
  ((a.1 - b.1) * (a.1 - b.1) + (a.2 - b.2) * (a.2 - b.2))%R.

(** Whether the row (pointy-topped) or column (flat-topped) of index [i] is
    the shifted one, as [coordinates] tests it. *)
Definition shifted (m : Metrics) (i : Z) : bool :=
  Z.abs (Z.rem i 2) =? (if even m then 0 else 1).

(** The six cells around a cell of the staggered grid: the two next to it
    on its own row (column, when flat-topped), and on each of the two
    adjacent rows the cell of the same index and the one beside it on the
    side the own row is staggered to. *)
Definition neighbours (m : Metrics) (q r : Z) : list (Z * Z) :=
  if rotated m then
    let r' := if shifted m q then r + 1 else r - 1 in
    [ (q, r - 1); (q, r + 1); (q - 1, r); (q + 1, r); (q - 1, r'); (q + 1, r') ]
  else
    let q' := if shifted m r then q + 1 else q - 1 in
    [ (q - 1, r); (q + 1, r); (q, r - 1); (q, r + 1); (q', r - 1); (q', r + 1) ].

End Viewport.

(** ** The life of a component *)

Module Lifecycle.
Import Js Binding.

(** What the host and the page do to a component. *)
Inductive Event :=
  | Assign (d : option Dataset)
  | Fire
  | Connect (body : option Layout.HexJson)
  | Disconnect.

Definition step (hm : HexMap) (ev : Event) : HexMap :=
  match ev with
  | Assign d => set_data d hm
  | Fire => fireTimeout hm
  | Connect body => (connectedCallback body hm).2
  | Disconnect => disconnectedCallback hm
  end.

Definition run (evs : list Event) (hm : HexMap) : HexMap :=
  foldl step hm evs.

End Lifecycle.

(** ** Code lookup *)

Module CodeLookup.
Import Js.

Section Lookup.

(** [fetch(url)] followed by [req.json()], the host's: the mapping a URL
    serves, or the exception of a failed request or a malformed body. *)
Context (fetchJson : string -> Result (gmap string (list string))).

(** The lookup: [#lookup], and the log of the URLs fetched (oldest
    first). *)
Record CodeLookup := {
  lookup : gmap string (list string);
  fetched : list string
}.

(** The instance the constructor builds. *)
Definition new : CodeLookup := {| lookup := ∅; fetched := [] |}.

(** [load(urls)]: the files are fetched one after the other, each spread
    over what is there; an exception ends the loop. *)
Fixpoint load (urls : list string) (c : CodeLookup) : Result unit * CodeLookup :=
  match urls with
  | [] => (Ok tt, c)
  | url :: rest =>
      match fetchJson url with
      | Throw e =>
          (Throw e, {| lookup := lookup c; fetched := fetched c ++ [url] |})
      | Ok data =>
          load rest {| lookup := data ∪ lookup c; fetched := fetched c ++ [url] |}
      end
  end.

(** [get(code)]; [None] is [undefined]. *)
Definition get (code : string) (c : CodeLookup) : option (list string) :=
  lookup c !! code.

End Lookup.

(** Sample files: two lookups that share the code [E1], and a URL that
    fails. *)
Definition sampleFetch (url : string) : Result (gmap string (list string)) :=
  if decide (url = "/lookup/wards.json") then
    Ok {[ "E1" := ["Ward one"]; "E2" := ["Ward two"] ]}
  else if decide (url = "/lookup/names.json") then
    Ok {[ "E1" := ["Ward 1"; "Calder"] ]}
  else Throw (TypeError "Failed to fetch").

End CodeLookup.

(** ** Samples for the storage item *)

Module StorageSamples.
Import Js StorageItem.

(** The sample JSON fragment with [undefined] ([None]), which
    [JSON.stringify] maps to [undefined]. *)
Definition stringifyOrUndefined (v : option SampleJson) : option string :=
  v ≫= sampleStringify.

Definition parseDefined (s : string) : Result (option SampleJson) :=
  match sampleParse s with
  | Ok v => Ok (Some v)
  | Throw e => Throw e
  end.

End StorageSamples.

(** * Properties *)

(** ** Geometry engine *)

Module GeometryFacts.
Import Geometry.

(** For the modulus 2, the truncating remainder and the floored modulus
    have the same absolute value. *)
Lemma abs_rem_2 (z : Z) : Z.abs (Z.rem z 2) = Z.abs (z mod 2).
Proof.
  pose proof (Z.rem_bound_abs z 2 ltac:(lia)).
  pose proof (Z.mod_pos_bound z 2 ltac:(lia)).
  pose proof (Z.rem_mod_eq_0 z 2 ltac:(lia)) as Hz.
  destruct (Z.eq_dec (Z.rem z 2) 0) as [E|E].
  - rewrite E. apply Hz in E. rewrite E. reflexivity.
  - assert (z mod 2 <> 0) by (intros E'; apply Hz in E'; contradiction).
    lia.
Qed.

Example rem_negative_odd : Z.abs (Z.rem (-3) 2) = 1.
Proof. reflexivity. Qed.

(** C1: for all integers q and r and each of the four layout modes,
    [coordinates q r] is the pair the specification's formulas give: in
    pointy-top mode x = mainPitch*q + (cadence if |r mod 2| = offsetTest,
    else 0) and y = height - crossPitch*r; in flat-top mode x = crossPitch*q
    and y = height - mainPitch*r - (cadence if |q mod 2| = offsetTest,
    else 0), with offsetTest = 0 for an even offset and 1 otherwise. *)
Theorem coordinates_project_spec (m : Metrics) (q r : Z) :
  coordinates m q r = project_spec m q r.
Proof.
  unfold coordinates, project_spec, offsetTest_spec.
  rewrite !abs_rem_2.
  destruct (rotated m); cbn [negb andb];
    repeat match goal with |- context [if ?b then _ else _] =>
      destruct b end;
    f_equal; lra.
Qed.

(** The four modes, spelled out on the parity of the staggered axis. *)
Lemma coordinates_pointy (m : Metrics) (q r : Z) :
  rotated m = false ->
  coordinates m q r =
    ((mainPitch m * IZR q
      + (if Z.odd r then (if even m then 0 else cadence m)
         else (if even m then cadence m else 0)))%R,
     (height m - crossPitch m * IZR r)%R).
Proof.
  intros Hr. unfold coordinates.
  rewrite Hr. cbn [negb andb]. rewrite abs_rem_2, Zmod_odd.
  destruct (Z.odd r), (even m); cbn; f_equal; lra.
Qed.

Lemma coordinates_flat (m : Metrics) (q r : Z) :
  rotated m = true ->
  coordinates m q r =
    ((crossPitch m * IZR q)%R,
     (height m - mainPitch m * IZR r
      - (if Z.odd q then (if even m then 0 else cadence m)
         else (if even m then cadence m else 0)))%R).
Proof.
  intros Hr. unfold coordinates.
  rewrite Hr. cbn [negb andb]. rewrite abs_rem_2, Zmod_odd.
  destruct (Z.odd q), (even m); cbn; f_equal; lra.
Qed.

End GeometryFacts.

(** ** Stable sorting *)

Module SortingFacts.
Import Js.

Section InsertionSort.
Context {A : Type} (cmp : A -> A -> Z).

Local Abbreviation le := (fun a b => cmp a b <= 0).

Lemma insertSorted_Permutation (x : A) (l : list A) :
  insertSorted cmp x l ≡ₚ x :: l.
Proof.
  induction l as [|y l IH]; cbn; [done|].
  destruct (cmp x y <=? 0); [done|].
  rewrite IH. apply Permutation_swap.
Qed.

Lemma toSorted_cons (x : A) (l : list A) :
  toSorted cmp (x :: l) = insertSorted cmp x (toSorted cmp l).
Proof. reflexivity. Qed.

Lemma toSorted_Permutation (l : list A) : toSorted cmp l ≡ₚ l.
Proof.
  induction l as [|x l IH]; [done|].
  rewrite toSorted_cons, insertSorted_Permutation. by f_equiv.
Qed.

(** Elements that land before an inserted element compare strictly after
    it, so the elements of one equivalence class keep their order. *)
Lemma filter_insertSorted (P : A -> Prop) `{!∀ x, Decision (P x)}
    (x : A) (l : list A) :
  (∀ y, P x -> P y -> cmp x y <= 0) ->
  filter P (insertSorted cmp x l) = filter P (x :: l).
Proof.
  intros HP. induction l as [|y l IH]; cbn; [done|].
  destruct (cmp x y <=? 0) eqn:E; [done|].
  apply Z.leb_gt in E.
  rewrite !filter_cons in *.
  destruct (decide (P y)) as [Hy|Hy]; destruct (decide (P x)) as [Hx|Hx];
    try (rewrite IH; done).
  specialize (HP y Hx Hy). lia.
Qed.

Lemma filter_toSorted (P : A -> Prop) `{!∀ x, Decision (P x)} (l : list A) :
  (∀ x y, P x -> P y -> cmp x y <= 0) ->
  filter P (toSorted cmp l) = filter P l.
Proof.
  intros HP. induction l as [|x l IH]; [done|].
  rewrite toSorted_cons, filter_insertSorted by (intros; by apply HP).
  rewrite !filter_cons, IH. done.
Qed.

Hypothesis cmp_flip : ∀ a b, 0 < cmp a b -> cmp b a <= 0.
Hypothesis cmp_trans : ∀ a b c, cmp a b <= 0 -> cmp b c <= 0 -> cmp a c <= 0.

Lemma insertSorted_StronglySorted (x : A) (l : list A) :
  StronglySorted le l -> StronglySorted le (insertSorted cmp x l).
Proof.
  induction 1 as [|y l Hs IH Hall]; cbn.
  - repeat constructor.
  - destruct (cmp x y <=? 0) eqn:E.
    + apply Z.leb_le in E. constructor; [by constructor|].
      constructor; [done|].
      eapply Forall_impl; [exact Hall|]. intros z Hz. cbn in *. eauto.
    + apply Z.leb_gt in E. constructor; [done|].
      rewrite insertSorted_Permutation. constructor; [|done].
      apply cmp_flip. lia.
Qed.

Lemma toSorted_StronglySorted (l : list A) : StronglySorted le (toSorted cmp l).
Proof.
  induction l as [|x l IH]; [constructor|].
  rewrite toSorted_cons. by apply insertSorted_StronglySorted.
Qed.

End InsertionSort.

(** In a strongly sorted list an element at a later position never compares
    strictly before one at an earlier position. *)
Lemma StronglySorted_lookup {A : Type} (R : relation A) (l : list A)
    (i k : nat) (a b : A) :
  StronglySorted R l -> l !! i = Some a -> l !! k = Some b ->
  (i < k)%nat -> R a b.
Proof.
  intros Hs. revert i k. induction Hs as [|x l Hs IH Hall]; intros i k Hi Hk Hlt.
  - by rewrite lookup_nil in Hi.
  - destruct k as [|k]; [lia|]. cbn in Hk.
    destruct i as [|i]; cbn in Hi.
    + injection Hi as ->. rewrite Forall_forall in Hall. apply Hall.
      by eapply list_elem_of_lookup_2.
    + eapply IH; eauto. lia.
Qed.

End SortingFacts.

(** ** Layout model and draw order *)

Module LayoutFacts.
Import Js Layout.

Lemma compareHexes_le (a b : HexDefinition) :
  compareHexes a b <= 0 <-> r a > r b \/ (r a = r b /\ q a <= q b).
Proof.
  unfold compareHexes.
  destruct (Z.ltb_spec (r a) (r b)), (Z.gtb_spec (r a) (r b)),
    (Z.ltb_spec (q a) (q b)), (Z.gtb_spec (q a) (q b)); lia.
Qed.

Lemma compareHexes_lt (a b : HexDefinition) :
  compareHexes a b < 0 <-> drawnBefore a b.
Proof.
  unfold compareHexes, drawnBefore.
  destruct (Z.ltb_spec (r a) (r b)), (Z.gtb_spec (r a) (r b)),
    (Z.ltb_spec (q a) (q b)), (Z.gtb_spec (q a) (q b)); lia.
Qed.

Lemma compareHexes_eq (a b : HexDefinition) :
  compareHexes a b = 0 <-> coordOf a = coordOf b.
Proof.
  unfold compareHexes, coordOf.
  destruct (Z.ltb_spec (r a) (r b)), (Z.gtb_spec (r a) (r b)),
    (Z.ltb_spec (q a) (q b)), (Z.gtb_spec (q a) (q b));
    split; intros E; try lia; try (injection E; lia); f_equal; lia.
Qed.

Lemma compareHexes_flip (a b : HexDefinition) :
  0 < compareHexes a b -> compareHexes b a <= 0.
Proof.
  intros H. apply compareHexes_le.
  assert (~ compareHexes a b <= 0) as N by lia.
  rewrite compareHexes_le in N. lia.
Qed.

Lemma compareHexes_trans (a b c : HexDefinition) :
  compareHexes a b <= 0 -> compareHexes b c <= 0 -> compareHexes a c <= 0.
Proof. rewrite !compareHexes_le. lia. Qed.

(** The comparator is antisymmetric: swapping the arguments negates it. *)
Lemma compareHexes_antisym (a b : HexDefinition) :
  compareHexes b a = - compareHexes a b.
Proof.
  unfold compareHexes.
  destruct (Z.ltb_spec (r a) (r b)), (Z.gtb_spec (r a) (r b)),
    (Z.ltb_spec (r b) (r a)), (Z.gtb_spec (r b) (r a)),
    (Z.ltb_spec (q a) (q b)), (Z.gtb_spec (q a) (q b)),
    (Z.ltb_spec (q b) (q a)), (Z.gtb_spec (q b) (q a)); lia.
Qed.

(** The order the comparator induces on coordinates. *)
Local Abbreviation coordLe :=
  (fun p1 p2 : Z * Z => p1.2 > p2.2 \/ (p1.2 = p2.2 /\ p1.1 <= p2.1)).

Lemma sorted_coordinates (l : list HexDefinition) :
  StronglySorted (fun a b => compareHexes a b <= 0) l ->
  StronglySorted coordLe (map coordOf l).
Proof.
  induction 1 as [|x l Hs IH Hall]; cbn; constructor; [done|].
  rewrite Forall_map. eapply Forall_impl; [exact Hall|].
  intros y Hy. cbn in *. by apply compareHexes_le.
Qed.

Lemma coordLe_antisym (p1 p2 : Z * Z) : coordLe p1 p2 -> coordLe p2 p1 -> p1 = p2.
Proof. destruct p1, p2; cbn. intros. f_equal; lia. Qed.

Lemma sorted_hexes (l : list HexDefinition) :
  StronglySorted (fun a b => compareHexes a b <= 0) (toSorted compareHexes l).
Proof.
  apply SortingFacts.toSorted_StronglySorted.
  - apply compareHexes_flip.
  - apply compareHexes_trans.
Qed.

(** The sequence of coordinates drawn does not depend on the order the
    cells are listed in. *)
Lemma sorted_coordinates_unique (l1 l2 : list HexDefinition) :
  l1 ≡ₚ l2 ->
  map coordOf (toSorted compareHexes l1) = map coordOf (toSorted compareHexes l2).
Proof.
  intros Hp.
  apply (StronglySorted_unique_strong coordLe).
  - intros; by apply coordLe_antisym.
  - apply sorted_coordinates, sorted_hexes.
  - apply sorted_coordinates, sorted_hexes.
  - by rewrite !SortingFacts.toSorted_Permutation, Hp.
Qed.

(** When no two cells share a coordinate, the order of the cells
    themselves does not depend on the order they are listed in. *)
Lemma coordOf_inj_on (l : list HexDefinition) (x y : HexDefinition) :
  NoDup (map coordOf l) -> x ∈ l -> y ∈ l -> coordOf x = coordOf y -> x = y.
Proof.
  induction l as [|z l IH]; intros Hnd Hx Hy E; [by apply elem_of_nil in Hx|].
  cbn in Hnd. apply NoDup_cons in Hnd as [Hz Hnd].
  apply elem_of_cons in Hx as [->|Hx]; apply elem_of_cons in Hy as [->|Hy].
  - done.
  - exfalso. apply Hz. rewrite E. apply list_elem_of_fmap. eauto.
  - exfalso. apply Hz. rewrite <- E. apply list_elem_of_fmap. eauto.
  - by apply IH.
Qed.

Lemma sorted_hexes_unique (l1 l2 : list HexDefinition) :
  l1 ≡ₚ l2 -> NoDup (map coordOf l1) ->
  toSorted compareHexes l1 = toSorted compareHexes l2.
Proof.
  intros Hp Hnd.
  apply (StronglySorted_unique_strong (fun a b => compareHexes a b <= 0)).
  - intros x1 x2 H1 H2 Hle Hge.
    rewrite SortingFacts.toSorted_Permutation in H1, H2.
    apply (coordOf_inj_on l1); [done|done|by rewrite Hp|].
    apply compareHexes_eq. rewrite (compareHexes_antisym x1 x2) in Hge. lia.
  - apply sorted_hexes.
  - apply sorted_hexes.
  - by rewrite !SortingFacts.toSorted_Permutation.
Qed.

(** Cells at one coordinate keep the order they are listed in. *)
Lemma hexes_stable (p : Z * Z) (l : list HexDefinition) :
  filter (fun d => coordOf d = p) (toSorted compareHexes l)
  = filter (fun d => coordOf d = p) l.
Proof.
  apply SortingFacts.filter_toSorted.
  intros x y Hx Hy. apply Z.eq_le_incl, compareHexes_eq. congruence.
Qed.

(** C2: the [hexes] getter returns the cells of the layout (a permutation
    of them), ordered by a total preorder that does not depend on the order
    the source lists them in: a cell with a greater [r] comes before one
    with a smaller [r], on equal [r] the cell with the smaller [q] comes
    first, and two cells with the same [(q, r)] compare equal.  Listing the
    cells in another order gives the same sequence of coordinates, and the
    same sequence of cells when no two cells share a coordinate. *)
Theorem hexes_draw_order (j : HexJson) :
  exists out,
    get_hexes (Some j) = Ok out
    /\ out ≡ₚ map withKey (hexes j)
    /\ (∀ i k a b, out !! i = Some a -> out !! k = Some b ->
          (r a > r b \/ (r a = r b /\ q a < q b)) -> (i < k)%nat)
    /\ (∀ a b, r a > r b -> compareHexes a b < 0 /\ 0 < compareHexes b a)
    /\ (∀ a b, r a = r b -> q a < q b ->
          compareHexes a b < 0 /\ 0 < compareHexes b a)
    /\ (∀ a b, q a = q b -> r a = r b -> compareHexes a b = 0)
    /\ (∀ a b, compareHexes a b <= 0 \/ compareHexes b a <= 0)
    /\ (∀ a b c, compareHexes a b <= 0 -> compareHexes b c <= 0 ->
          compareHexes a c <= 0)
    /\ (∀ j', hexes j' ≡ₚ hexes j ->
          exists out', get_hexes (Some j') = Ok out'
                       /\ map coordOf out' = map coordOf out
                       /\ (NoDup (map coordOf out) -> out' = out)).
Proof.
  exists (toSorted compareHexes (map withKey (hexes j))).
  split; [reflexivity|].
  split; [apply SortingFacts.toSorted_Permutation|].
  split.
  { intros i k a b Hi Hk Hab.
    destruct (decide (i < k)%nat) as [|Hge]; [done|exfalso].
    assert (~ compareHexes b a <= 0) as N.
    { rewrite compareHexes_le. lia. }
    apply N. destruct (decide (i = k)) as [->|Hne].
    - rewrite Hi in Hk. injection Hk as ->. lia.
    - apply (SortingFacts.StronglySorted_lookup
               (fun a b => compareHexes a b <= 0) _ k i b a
               (sorted_hexes _) Hk Hi).
      lia. }
  split.
  { intros a b H. rewrite (compareHexes_antisym a b).
    assert (compareHexes a b < 0); [|lia].
    apply compareHexes_lt. by left. }
  split.
  { intros a b H1 H2. rewrite (compareHexes_antisym a b).
    assert (compareHexes a b < 0); [|lia].
    apply compareHexes_lt. by right. }
  split.
  { intros a b H1 H2. apply compareHexes_eq. unfold coordOf. congruence. }
  split.
  { intros a b. rewrite (compareHexes_antisym a b). lia. }
  split.
  { apply compareHexes_trans. }
  intros j' Hp. eexists. split; [reflexivity|]. split.
  - apply sorted_coordinates_unique. by rewrite Hp.
  - intros Hnd. symmetry. apply sorted_hexes_unique; [by rewrite Hp|].
    by rewrite SortingFacts.toSorted_Permutation in Hnd.
Qed.

(** The theorem at the sample layout. *)
Lemma hexes_draw_order_sample :
  exists out,
    get_hexes (Some sampleLayout) = Ok out
    /\ out ≡ₚ map withKey (hexes sampleLayout)
    /\ (∀ i k a b, out !! i = Some a -> out !! k = Some b ->
          (r a > r b \/ (r a = r b /\ q a < q b)) -> (i < k)%nat)
    /\ (∀ a b, r a > r b -> compareHexes a b < 0 /\ 0 < compareHexes b a)
    /\ (∀ a b, r a = r b -> q a < q b ->
          compareHexes a b < 0 /\ 0 < compareHexes b a)
    /\ (∀ a b, q a = q b -> r a = r b -> compareHexes a b = 0)
    /\ (∀ a b, compareHexes a b <= 0 \/ compareHexes b a <= 0)
    /\ (∀ a b c, compareHexes a b <= 0 -> compareHexes b c <= 0 ->
          compareHexes a c <= 0)
    /\ (∀ j', hexes j' ≡ₚ hexes sampleLayout ->
          exists out', get_hexes (Some j') = Ok out'
                       /\ map coordOf out' = map coordOf out
                       /\ (NoDup (map coordOf out) -> out' = out)).
Proof. exact (hexes_draw_order sampleLayout). Defined.

(** The sample layout is drawn top row first, each row from the left; the
    two cells at (1, 0) stay in the order they are listed in. *)
Example hexes_sample_order :
  match get_hexes (Some sampleLayout) with
  | Ok out => map (fun d => (props d !! "key", coordOf d)) out
  | Throw _ => []
  end
  = [ (Some (VStr "c"), (-1, 2)); (Some (VStr "b"), (0, 2));
      (Some (VStr "e"), (0, 1));
      (Some (VStr "a"), (1, 0)); (Some (VStr "d"), (1, 0)) ].
Proof. vm_compute. reflexivity. Qed.

Example hexes_undefined_layout :
  get_hexes None = Throw (ReferenceError "GeoJSON layout not defined").
Proof. reflexivity. Qed.

End LayoutFacts.

(** ** Bounds of the layout *)

Module BoundsFacts.
Import Js Layout.

(** Once finite, the bounds stay finite. *)
Lemma fold_cornerStep_finite (l : list HexDefinition) (a b c e : Z) :
  exists a' b' c' e',
    fold_left cornerStep l {| min := (Fin a, Fin b); max := (Fin c, Fin e) |}
    = {| min := (Fin a', Fin b'); max := (Fin c', Fin e') |}.
Proof.
  revert a b c e. induction l as [|d l IH]; intros a b c e; cbn.
  - by exists a, b, c, e.
  - apply IH.
Qed.

(** The bounds of a layout with at least one cell are finite. *)
Lemma corners_nonempty_finite (d : HexDefinition) (l : list HexDefinition) :
  exists a b c e,
    fold_left cornerStep (d :: l) initialCorners
    = {| min := (Fin a, Fin b); max := (Fin c, Fin e) |}.
Proof. cbn. apply fold_cornerStep_finite. Qed.

(** The finite bounds enclose every cell folded over. *)
Lemma fold_cornerStep_bounds (l : list HexDefinition) (a b c e a' b' c' e' : Z) :
  fold_left cornerStep l {| min := (Fin a, Fin b); max := (Fin c, Fin e) |}
  = {| min := (Fin a', Fin b'); max := (Fin c', Fin e') |} ->
  (a' <= a /\ b' <= b /\ c <= c' /\ e <= e')
  /\ Forall (fun d => a' <= q d <= c' /\ b' <= r d <= e') l.
Proof.
  revert a b c e. induction l as [|d l IH]; intros a b c e H; cbn in H.
  - injection H as -> -> -> ->. split; [lia|constructor].
  - apply IH in H as [Hb Hall]. split; [lia|].
    constructor; [lia|done].
Qed.

(** C4 (as the code has it): when the cell map of the layout is empty,
    [loadLayout] raises no error; the bounds it yields are the initial ones
    of the fold, min = (Infinity, Infinity) and max = (-Infinity, -Infinity),
    and the column and row counts are -Infinity.  The bounds are finite
    exactly when the layout has a cell, so the empty layout can be told
    from the bounds. *)
Theorem empty_layout_bounds (j : HexJson) :
  hexes j = [] ->
  loadLayout (Some j)
  = Ok {| hexJson := j;
          rotated := endsWithQ (layout j);
          even := startsWithEven (layout j);
          corners := {| min := (Infinity, Infinity);
                        max := (NegInfinity, NegInfinity) |};
          nQuols := NegInfinity;
          nRows := NegInfinity |}
  /\ (∀ j' : HexJson,
        exists l, loadLayout (Some j') = Ok l
          /\ (hexes j' <> [] <->
              exists a b c e,
                corners l = {| min := (Fin a, Fin b); max := (Fin c, Fin e) |})).
Proof.
  intros Hj. split.
  - unfold loadLayout. rewrite Hj. reflexivity.
  - intros j'. eexists. split; [reflexivity|]. cbn.
    destruct (hexes j') as [|[k d] l]; cbn.
    + split; [done|]. intros (a & b & c & e & H). discriminate.
    + split; [|done]. intros _. apply fold_cornerStep_finite.
Qed.

(** The theorem at the empty odd-r layout. *)
Lemma empty_layout_bounds_witness :
  hexes {| layout := "odd-r"; hexes := [] |} = []
  /\ loadLayout (Some {| layout := "odd-r"; hexes := [] |})
     = Ok {| hexJson := {| layout := "odd-r"; hexes := [] |};
             rotated := false;
             even := false;
             corners := {| min := (Infinity, Infinity);
                           max := (NegInfinity, NegInfinity) |};
             nQuols := NegInfinity;
             nRows := NegInfinity |}.
Proof.
  split; [reflexivity|].
  exact (proj1 (empty_layout_bounds {| layout := "odd-r"; hexes := [] |} eq_refl)).
Defined.

(** C4 as stated fails: the empty layout is loaded without any error, and
    its bounds are infinite. *)
Lemma empty_layout_not_rejected :
  hexes {| layout := "odd-r"; hexes := [] |} = []
  /\ (∀ e, loadLayout (Some {| layout := "odd-r"; hexes := [] |}) <> Throw e)
  /\ (exists l, loadLayout (Some {| layout := "odd-r"; hexes := [] |}) = Ok l
        /\ min (corners l) = (Infinity, Infinity)
        /\ max (corners l) = (NegInfinity, NegInfinity)).
Proof.
  split; [reflexivity|]. split; [intros e; discriminate|].
  eexists. split; [reflexivity|]. split; reflexivity.
Qed.

(** The bounds of the sample layout. *)
Example sample_bounds :
  match loadLayout (Some sampleLayout) with
  | Ok l => Some (corners l, nQuols l, nRows l, rotated l, even l)
  | Throw _ => None
  end
  = Some ({| min := (Fin (-1), Fin 0); max := (Fin 1, Fin 2) |},
          Fin 3, Fin 3, false, false).
Proof. reflexivity. Qed.

Example layout_tokens :
  (endsWithQ "odd-q", endsWithQ "even-r", startsWithEven "even-q",
   startsWithEven "odd-r", endsWithQ "")
  = (true, false, true, false, false).
Proof. reflexivity. Qed.

End BoundsFacts.

(** ** Data binding *)

Module BindingFacts.
Import Js Binding.

(** *** Defaults of a dataset entry *)



(** *** Style properties *)

Lemma lookup_setProperty (st : gmap string string) (kv : string * string)
    (k : string) :
  setProperty st kv !! k =
    if decide (kv.1 = k) then (if decide (kv.2 = "") then None else Some kv.2)
    else st !! k.
Proof.
  unfold setProperty. destruct (decide (kv.2 = "")).
  - rewrite lookup_delete. by destruct (decide (kv.1 = k)).
  - rewrite lookup_insert. by destruct (decide (kv.1 = k)).
Qed.

Lemma setProperty_overwrite (st : gmap string string) (kv kv' : string * string) :
  kv.1 = kv'.1 -> setProperty (setProperty st kv) kv' = setProperty st kv'.
Proof.
  intros E. apply map_eq. intros k. rewrite !lookup_setProperty, E.
  by destruct (decide (kv'.1 = k)).
Qed.

Lemma setProperty_comm (st : gmap string string) (kv kv' : string * string) :
  kv.1 <> kv'.1 ->
  setProperty (setProperty st kv) kv' = setProperty (setProperty st kv') kv.
Proof.
  intros E. apply map_eq. intros k. rewrite !lookup_setProperty.
  destruct (decide (kv'.1 = k)), (decide (kv.1 = k)); congruence.
Qed.

(** A property set at the end of a pass may as well not have been set before
    the pass. *)
Lemma foldl_setProperty_absorb (st : gmap string string)
    (l : list (string * string)) (kv : string * string) :
  setProperty (foldl setProperty (setProperty st kv) l) kv
  = setProperty (foldl setProperty st l) kv.
Proof.
  revert st. induction l as [|kv' l IH]; intros st; cbn.
  - by apply setProperty_overwrite.
  - destruct (decide (kv.1 = kv'.1)) as [E|E].
    + by rewrite setProperty_overwrite.
    + rewrite setProperty_comm by done. apply IH.
Qed.

(** Applying the same list of properties a second time changes nothing. *)
Lemma foldl_setProperty_idem (st : gmap string string)
    (l : list (string * string)) :
  foldl setProperty (foldl setProperty st l) l = foldl setProperty st l.
Proof.
  revert st. induction l as [|kv l IH] using rev_ind; intros st; [done|].
  rewrite !foldl_app. cbn.
  rewrite foldl_setProperty_absorb. by rewrite IH.
Qed.

Lemma foldl_setProperty_frame (st : gmap string string)
    (l : list (string * string)) (k : string) :
  k ∉ l.*1 -> foldl setProperty st l !! k = st !! k.
Proof.
  revert st. induction l as [|kv l IH]; intros st Hk; cbn; [done|].
  cbn in Hk. apply not_elem_of_cons in Hk as [Hne Hk].
  rewrite IH by done. rewrite lookup_setProperty.
  by destruct (decide (kv.1 = k)).
Qed.

(** *** One rendered hex *)

Lemma datasetKey_updateHex (hm : HexMap) (d : Dataset) (hex : HexContainer) :
  datasetKey (updateHex hm d hex) = datasetKey hex.
Proof. unfold datasetKey, updateHex; cbn. by rewrite lookup_insert_ne. Qed.

Lemma updateHex_idem (hm : HexMap) (d : Dataset) (hex : HexContainer) :
  updateHex hm d (updateHex hm d hex) = updateHex hm d hex.
Proof.
  unfold updateHex at 1. rewrite datasetKey_updateHex.
  unfold updateHex. cbn.
  set (count := field _ "count"). set (value := field _ "value").
  assert (<["value":=VNum value]>
            (<["count":=VNum count]>
               (<["value":=VNum value]> (<["count":=VNum count]> (context hex))))
          = <["value":=VNum value]> (<["count":=VNum count]> (context hex)))
    as ->.
  { apply map_eq. intros k. rewrite !lookup_insert.
    repeat case_decide; done. }
  f_equal.
  - by rewrite insert_insert_eq.
  - apply foldl_setProperty_idem.
Qed.

Lemma updateHex_sameGroup (hm : HexMap) (d : Dataset) (hex : HexContainer) :
  sameGroup hm hex (updateHex hm d hex).
Proof.
  unfold sameGroup. split; [done|]. split; [done|].
  split; [apply datasetKey_updateHex|].
  split; [|split].
  - intros k Hk. cbn. by rewrite lookup_insert_ne.
  - intros k Hc Hv. cbn. by rewrite !lookup_insert_ne.
  - intros k Hk. cbn in *. by apply foldl_setProperty_frame.
Qed.

End BindingFacts.

(** *** The whole bind *)

Module BindFacts.
Import Js Binding BindingFacts.

Lemma set_data_field_id (hm : HexMap) : set_data_field (data hm) hm = hm.
Proof. by destruct hm. Qed.

Lemma updateHexes_connected (hm : HexMap) (d : Dataset) :
  data hm = Some d -> connected hm = true ->
  _updateHexes hm = set_shadowRoot (map (updateHex hm d) <$> shadowRoot hm) hm.
Proof. intros Hd Hc. unfold _updateHexes. by rewrite Hd, Hc. Qed.

Lemma updateHexes_not_connected (hm : HexMap) (d : Dataset) :
  data hm = Some d -> connected hm = false ->
  _updateHexes hm = setTimeout 250 hm.
Proof. intros Hd Hc. unfold _updateHexes. by rewrite Hd, Hc. Qed.

Lemma updateHexes_no_data (hm : HexMap) :
  data hm = None -> _updateHexes hm = hm.
Proof. intros Hd. unfold _updateHexes. by rewrite Hd. Qed.

(** A pass over the rendered hexes depends on the instance through its
    mappers only. *)
Lemma updateHex_mappers (hm hm' : HexMap) (d : Dataset) (hex : HexContainer) :
  titleSpec hm' = titleSpec hm -> styleSpec hm' = styleSpec hm ->
  updateHex hm' d hex = updateHex hm d hex.
Proof. intros Ht Hs. unfold updateHex. by rewrite Ht, Hs. Qed.

Lemma updateHexes_twice (hm : HexMap) :
  shadowRoot (_updateHexes (_updateHexes hm)) = shadowRoot (_updateHexes hm)
  /\ (connected hm = true -> _updateHexes (_updateHexes hm) = _updateHexes hm).
Proof.
  destruct (data hm) as [d|] eqn:Hd.
  2: { rewrite !(updateHexes_no_data hm) by done. by split. }
  destruct (connected hm) eqn:Hc.
  - rewrite (updateHexes_connected hm d) by done.
    assert (_updateHexes
              (set_shadowRoot (map (updateHex hm d) <$> shadowRoot hm) hm)
            = set_shadowRoot (map (updateHex hm d) <$> shadowRoot hm) hm) as E.
    { rewrite (updateHexes_connected _ d) by done.
      destruct hm as [m dt sr ls ts ss c ic to]; cbn in *.
      unfold set_shadowRoot; cbn. f_equal.
      destruct sr as [cells|]; cbn; [|done]. f_equal.
      rewrite <- list_fmap_compose. apply list_fmap_ext.
      intros i hex _. cbn.
      etrans; [|apply updateHex_idem]. by apply updateHex_mappers. }
    by rewrite E.
  - split; [|done].
    rewrite (updateHexes_not_connected hm d) by done.
    rewrite (updateHexes_not_connected _ d) by done. done.
Qed.

(** C3: calling [_updateHexes] a second time, with the dataset and the
    mappers unchanged, leaves the rendered hexes exactly as the first call
    left them; the same holds for assigning the same dataset twice through
    the [data] setter.  (The mappers are functions of the context, hence
    pure.) *)
Theorem updateHexes_idempotent (hm : HexMap) (d : option Dataset) :
  shadowRoot (_updateHexes (_updateHexes hm)) = shadowRoot (_updateHexes hm)
  /\ (connected hm = true -> _updateHexes (_updateHexes hm) = _updateHexes hm)
  /\ shadowRoot (set_data d (set_data d hm)) = shadowRoot (set_data d hm).
Proof.
  destruct (updateHexes_twice hm) as [H1 H2].
  split; [done|]. split; [done|].
  unfold set_data.
  assert (data (_updateHexes (set_data_field d hm)) = d) as Hd.
  { unfold _updateHexes. cbn. destruct d; [|done]. by destruct (connected hm). }
  rewrite <- Hd at 1. rewrite set_data_field_id.
  apply updateHexes_twice.
Qed.



(** C7: a bind neither creates nor removes a rendered hex.  It changes
    nothing of the instance but the rendered hexes (and, when deferred, the
    queue of retries); the hexes stay as many, in the same positions, and
    each keeps its key, its position, its label and its other attributes:
    only [count] and [value] of the context, the [data-value] attribute, the
    title and the style properties named by [styleSpec] are written. *)
Theorem updateHexes_frame (hm : HexMap) :
  metrics (_updateHexes hm) = metrics hm
  /\ data (_updateHexes hm) = data hm
  /\ labelSpec (_updateHexes hm) = labelSpec hm
  /\ titleSpec (_updateHexes hm) = titleSpec hm
  /\ styleSpec (_updateHexes hm) = styleSpec hm
  /\ connected (_updateHexes hm) = connected hm
  /\ isConnected (_updateHexes hm) = isConnected hm
  /\ length <$> shadowRoot (_updateHexes hm) = length <$> shadowRoot hm
  /\ option_Forall2 (Forall2 (sameGroup hm))
       (shadowRoot hm) (shadowRoot (_updateHexes hm)).
Proof.
  unfold _updateHexes.
  destruct (data hm) as [d|] eqn:Hd.
  2: { repeat split; try done.
       destruct (shadowRoot hm) as [cells|]; constructor.
       apply Forall2_same_length_lookup_2; [done|].
       intros i x y Hx Hy. rewrite Hx in Hy. injection Hy as <-.
       unfold sameGroup. repeat split; done. }
  destruct (connected hm) eqn:Hc; cbn [negb].
  - repeat split; try done.
    + cbn. destruct (shadowRoot hm); cbn; [|done]. by rewrite length_map.
    + cbn. destruct (shadowRoot hm) as [cells|]; constructor.
      apply Forall2_fmap_r, Forall_Forall2_diag, Forall_forall.
      intros hex _. apply updateHex_sameGroup.
  - repeat split; try done.
    cbn. destruct (shadowRoot hm) as [cells|]; constructor.
    apply Forall_Forall2_diag, Forall_forall. intros hex _.
    unfold sameGroup. repeat split; done.
Qed.

End BindFacts.

(** *** Deferred binds *)

Module DeferFacts.
Import Js Binding BindingFacts BindFacts.

Lemma fireTimeout_not_connected (hm : HexMap) (d : Dataset) (t : Z) (rest : list Z) :
  data hm = Some d -> connected hm = false -> timeouts hm = t :: rest ->
  fireTimeout hm = set_timeouts (rest ++ [250]) hm.
Proof.
  intros Hd Hc Ht. unfold fireTimeout. rewrite Ht.
  rewrite (updateHexes_not_connected _ d) by done. done.
Qed.

Lemma fireTimeout_connected (hm : HexMap) (d : Dataset) (t : Z) (rest : list Z) :
  data hm = Some d -> connected hm = true -> timeouts hm = t :: rest ->
  fireTimeout hm
  = set_shadowRoot (map (updateHex hm d) <$> shadowRoot hm) (set_timeouts rest hm).
Proof.
  intros Hd Hc Ht. unfold fireTimeout. rewrite Ht.
  rewrite (updateHexes_connected _ d) by done. done.
Qed.

(** While the component is not connected the retries go on for ever: each
    firing leaves the rendered hexes alone and queues the next one. *)
Lemma polling (n : nat) (hm : HexMap) (d : Dataset) :
  data hm = Some d -> connected hm = false ->
  shadowRoot (Nat.iter n fireTimeout hm) = shadowRoot hm
  /\ data (Nat.iter n fireTimeout hm) = Some d
  /\ connected (Nat.iter n fireTimeout hm) = false
  /\ isConnected (Nat.iter n fireTimeout hm) = isConnected hm
  /\ length (timeouts (Nat.iter n fireTimeout hm)) = length (timeouts hm).
Proof.
  intros Hd Hc. induction n as [|n IH]; [done|].
  change (Nat.iter (S n) fireTimeout hm)
    with (fireTimeout (Nat.iter n fireTimeout hm)).
  set (prev := Nat.iter n fireTimeout hm) in *.
  destruct IH as (Hs & Hd' & Hc' & Hi & Hl).
  destruct (timeouts prev) as [|t rest] eqn:Ht.
  - assert (fireTimeout prev = prev) as ->.
    { unfold fireTimeout. by rewrite Ht. }
    by rewrite Ht.
  - rewrite (fireTimeout_not_connected _ d t rest) by done. cbn.
    repeat split; try done.
    rewrite <- Hl. rewrite length_app. cbn. lia.
Qed.

(** C5 (as the code has it): a bind that finds the component not connected
    (before the render tree is attached, or after [disconnectedCallback])
    throws nothing and is not dropped: it changes no rendered hex and queues
    one retry 250 ms later.  A retry that fires while the component is
    connected performs the bind.  A retry that fires while the component is
    still not connected, in particular after [disconnectedCallback], changes
    no rendered hex either, but it is not cancelled: it queues itself again,
    250 ms later, and so on for as long as the component stays
    unconnected. *)
Theorem deferred_bind (hm : HexMap) (d : Dataset) :
  data hm = Some d ->
  (∀ hm0, connected hm0 = false ->
     set_data (Some d) hm0 = setTimeout 250 (set_data_field (Some d) hm0)
     /\ shadowRoot (set_data (Some d) hm0) = shadowRoot hm0
     /\ timeouts (set_data (Some d) hm0) = timeouts hm0 ++ [250])
  /\ (connected hm = false ->
      _updateHexes hm = setTimeout 250 hm
      /\ (∀ t rest, timeouts hm = t :: rest ->
            fireTimeout hm = set_timeouts (rest ++ [250]) hm)
      /\ (∀ n, shadowRoot (Nat.iter n fireTimeout hm) = shadowRoot hm
               /\ connected (Nat.iter n fireTimeout hm) = false
               /\ length (timeouts (Nat.iter n fireTimeout hm))
                  = length (timeouts hm)))
  /\ (∀ t rest, timeouts hm = t :: rest ->
        fireTimeout (disconnectedCallback hm)
        = set_timeouts (rest ++ [250]) (disconnectedCallback hm)
        /\ shadowRoot (fireTimeout (disconnectedCallback hm)) = shadowRoot hm)
  /\ (connected hm = true ->
      ∀ t rest, timeouts hm = t :: rest ->
        fireTimeout hm
        = set_shadowRoot (map (updateHex hm d) <$> shadowRoot hm)
            (set_timeouts rest hm)).
Proof.
  intros Hd. split; [|split; [|split]].
  - intros hm0 Hc.
    assert (set_data (Some d) hm0 = setTimeout 250 (set_data_field (Some d) hm0)) as E.
    { unfold set_data. by apply (updateHexes_not_connected _ d). }
    rewrite E. done.
  - intros Hc. split; [by apply (updateHexes_not_connected _ d)|]. split.
    + intros t rest Ht. by apply (fireTimeout_not_connected _ d t).
    + intros n. destruct (polling n hm d Hd Hc) as (? & ? & ? & ? & ?). done.
  - intros t rest Ht.
    rewrite (fireTimeout_not_connected _ d t rest) by done. done.
  - intros Hc t rest Ht. by apply (fireTimeout_connected _ d t).
Qed.

(** The theorem at the sample instance whose bind was deferred. *)
Lemma deferred_bind_witness :
  data pendingBind = Some sampleData
  /\ timeouts pendingBind = [250]
  /\ fireTimeout (disconnectedCallback pendingBind)
     = set_timeouts [250] (disconnectedCallback pendingBind).
Proof.
  split; [reflexivity|]. split; [reflexivity|].
  exact (proj1 (proj1 (proj2 (proj2 (deferred_bind pendingBind sampleData eq_refl)))
                  250 [] eq_refl)).
Defined.

(** C5 as stated fails: a deferred bind that is pending when the component
    is disconnected does not become a no-op.  When its timeout fires the
    retry is queued once more; and when the element was removed while the
    layout was still loading, [connectedCallback] resumes all the same and
    marks the component connected, so that the next retry writes into the
    hexes of the removed element. *)
Lemma pending_bind_not_cancelled :
  (timeouts tornDown = [250]
   /\ connected tornDown = false
   /\ isConnected tornDown = false
   /\ timeouts (fireTimeout tornDown) = [250]
   /\ fireTimeout tornDown <> set_timeouts [] tornDown)
  /\ (let hm := resumedAfterTearDown.2 in
      resumedAfterTearDown.1 = Ok tt
      /\ isConnected hm = false
      /\ connected hm = true
      /\ timeouts hm = [250; 250]
      /\ ((.!! "data-key") ∘ attributes <$> (shadowRoot hm ≫= (.!! 3%nat)))
         = Some (Some "a")
      /\ ((.!! "count") ∘ context <$> (shadowRoot hm ≫= (.!! 3%nat)))
         = Some None
      /\ ((.!! "count") ∘ context
           <$> (shadowRoot (fireTimeout hm) ≫= (.!! 3%nat)))
         = Some (Some (VNum 5))
      /\ ((.!! "data-value") ∘ attributes
           <$> (shadowRoot (fireTimeout hm) ≫= (.!! 3%nat)))
         = Some (Some "0")).
Proof.
  split.
  - repeat split.
    intros E. apply (f_equal timeouts) in E. discriminate E.
  - vm_compute. repeat split.
Qed.

End DeferFacts.

Module ScenarioFacts.
Import Js Binding.

(** The end-to-end example: one hex with the key [1,1], the label [Alp] and
    the tooltip [Alpha]; the bind writes the fields of the entry and creates
    no second hex. *)
Example end_to_end :
  endToEndConnected.1 = Ok tt
  /\ (map (fun hex => (attributes hex !! "data-key", text hex, title hex))
        <$> shadowRoot endToEndConnected.2)
     = Some [ (Some "1,1", "Alp", "Alpha") ]
  /\ (map (fun hex => (attributes hex !! "data-key", text hex, title hex,
                       context hex !! "count", context hex !! "value",
                       attributes hex !! "data-value", style hex !! "fill"))
        <$> shadowRoot endToEndBound)
     = Some [ (Some "1,1", "Alp", "Alpha", Some (VNum 5), Some (VNum 2),
               Some "2", Some "#333") ].
Proof. vm_compute. repeat split. Qed.

(** A second [connectedCallback] on the same element throws at
    [attachShadow] and leaves the component unconnected. *)
Example reconnect_throws :
  let hm := disconnectedCallback endToEndConnected.2 in
  (connectedCallback (Some endToEndLayout) hm).1
  = Throw (DOMException "NotSupportedError")
  /\ connected (connectedCallback (Some endToEndLayout) hm).2 = false.
Proof. vm_compute. repeat split. Qed.

End ScenarioFacts.

(** ** Tiered cache *)

Module TieredCacheFacts.
Import Js TieredCache.

Example defaultSplitter_samples :
  (defaultSplitter "a b  c", defaultSplitter "  2021	E05000123 ",
   defaultSplitter "a.b.c", defaultSplitter "", defaultSplitter "   ")
  = (["a"; "b"; "c"], ["2021"; "E05000123"], ["a.b.c"], [""], [""]).
Proof. reflexivity. Qed.

Section Cache.
Context {T : Type}.
Context (leafGet : T -> string -> Result (@Value T)).
Context (loadFunction : string -> Result (gmap string (@Value T))).
Context (splitter : string -> list string).

Local Abbreviation get := (get leafGet).
Local Abbreviation descend := (descend leafGet).
Local Abbreviation loader := (loader loadFunction).
Local Abbreviation lookupOne := (lookupOne leafGet loadFunction splitter).




Lemma descend_Object (k : string) (levels : list string) (m : gmap string Value) :
  descend (k :: levels) (Ok (Object m))
  = descend levels (Ok (default Undefined (m !! k))).
Proof. reflexivity. Qed.





(** At most one load call is made, and it is made with the original key. *)
Lemma lookupOne_loads (key : string) (c : Cache) :
  loads (lookupOne key c).2 = loads c
  \/ loads (lookupOne key c).2 = loads c ++ [key].
Proof.
  unfold TieredCache.lookupOne, TieredCache.loader.
  destruct (TieredCache.get _ _ _) as [v|[]]; cbn; auto.
  destruct (loadFunction key); cbn; auto.
Qed.


(** C10: the load-and-merge combines by top-level key only.  An entry of
    the loaded mapping replaces the cached entry of the same key as a
    whole, and a cached entry whose key the loaded mapping lacks stays as it
    is. *)
Theorem loader_merges_top_level (key : string) (c : Cache)
    (loaded : gmap string Value) :
  loadFunction key = Ok loaded ->
  data (loader key c).2 = loaded ∪ data c
  /\ (∀ k v, loaded !! k = Some v -> data (loader key c).2 !! k = Some v)
  /\ (∀ k, loaded !! k = None -> data (loader key c).2 !! k = data c !! k)
  /\ loads (loader key c).2 = loads c ++ [key].
Proof.
  intros Hl. unfold TieredCache.loader. rewrite Hl. cbn.
  split; [done|]. split; [|split; [|done]].
  - intros k v Hk. by apply lookup_union_Some_l.
  - intros k Hk. by apply lookup_union_r.
Qed.

End Cache.


Lemma loader_merges_top_level_witness :
  sampleLoader "a c" = Ok {[ "a" := Object {[ "b" := Leaf ["Bee"] ]} ]}
  /\ data (loader sampleLoader "a c"
             {| data := {[ "a" := Object {[ "c" := Leaf ["Sea"] ]};
                           "x" := Object ∅ ]};
                loads := [] |}).2
     = {[ "a" := Object {[ "b" := Leaf ["Bee"] ]} ]}
       ∪ {[ "a" := Object {[ "c" := Leaf ["Sea"] ]}; "x" := Object ∅ ]}.
Proof.
  split; [reflexivity|].
  exact (proj1 (loader_merges_top_level sampleLoader "a c" _ _ eq_refl)).
Defined.

(** The merge is not deep: the cached subtree of [a] is lost as a whole. *)
Example loader_not_deep :
  let c' := (loader sampleLoader "a c"
               {| data := {[ "a" := Object {[ "c" := Leaf ["Sea"] ]};
                             "x" := Object ∅ ]};
                  loads := [] |}).2 in
  data c' !! "a" = Some (Object {[ "b" := Leaf ["Bee"] ]})
  /\ data c' !! "x" = Some (Object ∅)
  /\ get sampleLeafGet ["a"; "c"] c' = Ok Undefined.
Proof. vm_compute. repeat split. Qed.


(** With the default splitter the key [a.b.c] has one level: on the empty
    cache it is answered with [undefined], and nothing is loaded. *)
Example one_level_key_no_load :
  defaultSplitter "a.b.c" = ["a.b.c"]
  /\ sampleLookupOne "a.b.c" empty = (Ok Undefined, empty).
Proof. vm_compute. repeat split. Qed.

(** A second miss does go to the caller: the file of [z] holds nothing. *)
Example second_miss_propagates :
  exists msg,
    sampleLookupOne "z y" empty
    = (Throw (TypeError msg), {| data := ∅; loads := ["z y"] |}).
Proof. eexists. vm_compute. reflexivity. Qed.

(** A second lookup of a loaded path makes no further load call. *)
Example second_lookup_no_load :
  sampleLookupOne "a b" (sampleLookupOne "a b" empty).2
  = (Ok (Leaf ["Bee"]), (sampleLookupOne "a b" empty).2).
Proof. vm_compute. reflexivity. Qed.

End TieredCacheFacts.

(** ** Session storage item *)

Module StorageItemFacts.
Import Js StorageItem.

Section Storage.
Context {Json : Type}.
Context (JSON_stringify : Json -> option string).
Context (JSON_parse : string -> Result Json).

Local Abbreviation set := (set JSON_stringify).
Local Abbreviation get := (get JSON_parse).

Lemma new_nonempty (k : string) : k <> "" -> new k = Ok {| key := k |}.
Proof. intros Hk. unfold new. by destruct (decide (k = "")). Qed.

Lemma new_empty : exists e, new "" = Throw e.
Proof. eexists. reflexivity. Qed.

Lemma get_unset (it : StorageItem) (st : gmap string string) :
  st !! key it = None -> get it st = Throw (ReferenceError "Raw data not set").
Proof. intros H. unfold StorageItem.get. by rewrite H. Qed.

Lemma get_cleared (it : StorageItem) (st : gmap string string) :
  get it (clear it st) = Throw (ReferenceError "Raw data not set").
Proof. apply get_unset. apply lookup_delete_eq. Qed.

(** Items of other keys do not see a [set] or a [clear]. *)
Lemma get_set_other (it it' : StorageItem) (data : Json)
    (st : gmap string string) :
  key it <> key it' -> get it' (set it data st) = get it' st.
Proof.
  intros Hne. unfold StorageItem.get, StorageItem.set.
  by rewrite lookup_insert_ne.
Qed.

Lemma get_clear_other (it it' : StorageItem) (st : gmap string string) :
  key it <> key it' -> get it' (clear it st) = get it' st.
Proof.
  intros Hne. unfold StorageItem.get, clear. by rewrite lookup_delete_ne.
Qed.

(** What [get] reads back after a [set] is the parse of the string
    [JSON.stringify] gave, unless that string is empty. *)
Lemma get_set_same (it : StorageItem) (data : Json) (s : string)
    (st : gmap string string) :
  JSON_stringify data = Some s -> s <> "" ->
  get it (set it data st) = JSON_parse s.
Proof.
  intros Hs Hne. unfold StorageItem.get, StorageItem.set.
  rewrite lookup_insert_eq, Hs. cbn. by destruct (decide (s = "")).
Qed.

(** A value [JSON.stringify] answers with [undefined] (a function, say) is
    stored as the string [undefined]. *)
Lemma get_set_undefined (it : StorageItem) (data : Json)
    (st : gmap string string) :
  JSON_stringify data = None ->
  get it (set it data st) = JSON_parse "undefined".
Proof.
  intros Hs. unfold StorageItem.get, StorageItem.set.
  rewrite lookup_insert_eq, Hs. cbn. by destruct (decide _).
Qed.

(** C9: for a non-empty key and a value the host's JSON functions carry
    through a string and back, [get] after [set] returns the value; [get] on
    a key that is not in the storage, or that was cleared (also right after
    a [set]), throws instead of returning a value. *)
Theorem set_get_roundtrip (k : string) (data : Json) (s : string)
    (st : gmap string string) :
  k <> "" ->
  JSON_stringify data = Some s ->
  JSON_parse s = Ok data ->
  (∀ v, JSON_parse "" <> Ok v) ->
  exists it,
    new k = Ok it
    /\ get it (set it data st) = Ok data
    /\ (st !! k = None -> exists e, get it st = Throw e)
    /\ (exists e, get it (clear it st) = Throw e)
    /\ (exists e, get it (clear it (set it data st)) = Throw e).
Proof.
  intros Hk Hs Hp Hempty. exists {| key := k |}.
  split; [by apply new_nonempty|]. split; [|split; [|split]].
  - rewrite (get_set_same _ _ s) by (try done; intros ->; by apply Hempty in Hp).
    done.
  - intros Hn. eexists. by apply get_unset.
  - eexists. apply get_cleared.
  - eexists. apply get_cleared.
Qed.

End Storage.

(** The theorem at the key [visits] and the value 42, with the sample JSON
    fragment. *)
Lemma set_get_roundtrip_witness :
  exists it,
    new "visits" = Ok it
    /\ get sampleParse it (set sampleStringify it (JNum 42) ∅) = Ok (JNum 42)
    /\ (exists e, get sampleParse it (clear it (set sampleStringify it (JNum 42) ∅))
                  = Throw e).
Proof.
  destruct (set_get_roundtrip sampleStringify sampleParse
              "visits" (JNum 42) "42" ∅)
    as (it & H1 & H2 & _ & _ & H3).
  - discriminate.
  - reflexivity.
  - reflexivity.
  - intros v. discriminate.
  - exists it. split; [exact H1|]. split; [exact H2|exact H3].
Defined.

(** The sample JSON fragment carries each of its values through a string
    and back, and none of its texts is empty. *)
Lemma digitOf_pretty_N_char (x : N) :
  (x < 10)%N -> digitOf (pretty_N_char x) = Some (Z.of_N x).
Proof.
  intros Hx.
  assert (x = 0 \/ x = 1 \/ x = 2 \/ x = 3 \/ x = 4 \/ x = 5 \/ x = 6
          \/ x = 7 \/ x = 8 \/ x = 9)%N as H by lia.
  repeat (destruct H as [->|H]; [reflexivity|]). by subst.
Qed.

Lemma parseDigits_pretty_N_go (x : N) (s : string) :
  parseDigits 0 (pretty_N_go x s) = parseDigits (Z.of_N x) s.
Proof.
  revert s. induction (N.lt_wf_0 x) as [x _ IH]. intros s.
  destruct (decide (x = 0)%N) as [->|Hx]; [done|].
  rewrite pretty_N_go_step by lia.
  rewrite IH by (apply N.div_lt; lia). cbn.
  rewrite digitOf_pretty_N_char by (apply N.mod_lt; lia).
  f_equal. rewrite <- (N2Z.inj_mul 10), <- N2Z.inj_add. f_equal.
  symmetry. apply N.div_mod. lia.
Qed.

Lemma pretty_N_go_head (x : N) (s : string) :
  (0 < x)%N ->
  exists c s', pretty_N_go x s = String c s' /\ is_Some (digitOf c).
Proof.
  revert s. induction (N.lt_wf_0 x) as [x _ IH]. intros s Hx.
  rewrite pretty_N_go_step by done.
  destruct (decide (x `div` 10 = 0)%N) as [->|Hd].
  - rewrite pretty_N_go_0. eexists _, _. split; [done|].
    rewrite digitOf_pretty_N_char by (apply N.mod_lt; lia). done.
  - apply IH; [apply N.div_lt; lia|by apply N.neq_0_lt_0].
Qed.

Lemma parse_pretty_positive (p : positive) :
  exists c s', pretty p = String c s' /\ is_Some (digitOf c)
               /\ parseDigits 0 (pretty p) = Some (Z.pos p).
Proof.
  unfold pretty, pretty_positive, pretty, pretty_N.
  destruct (decide (N.pos p = 0%N)) as [|_]; [done|].
  destruct (pretty_N_go_head (N.pos p) "" ltac:(lia)) as (c & s' & E & Hc).
  exists c, s'. split; [done|]. split; [done|].
  by rewrite parseDigits_pretty_N_go.
Qed.

Lemma sample_json_roundtrip (v : SampleJson) :
  exists s, sampleStringify v = Some s /\ sampleParse s = Ok v /\ s <> "".
Proof.
  destruct v as [|[]|[|p|p]]; try (eexists; split; [reflexivity|]; done).
  - destruct (parse_pretty_positive p) as (c & s' & E & [d Hc] & Hp).
    exists (pretty p). split; [done|]. split; [|by rewrite E].
    unfold sampleParse. rewrite E in *.
    repeat (destruct (decide _) as [[= -> _]|_]; [done|]).
    unfold parseInteger.
    destruct (decide (c = "-"%char)) as [->|_]; [done|]. by rewrite Hp.
  - destruct (parse_pretty_positive p) as (c & s' & E & [d Hc] & Hp).
    exists (String "-" (pretty p)). split; [done|]. split; [|done].
    unfold sampleParse.
    repeat (destruct (decide (String "-" (pretty p) = _)) as [[=]|_]).
    unfold parseInteger.
    destruct (decide ("-"%char = "-"%char)) as [_|]; [|done].
    destruct (decide (pretty p = "")) as [E'|_]; [by rewrite E in E'|].
    by rewrite Hp.
Qed.

(** With the sample JSON fragment every value comes back, whatever the
    non-empty key and the storage. *)
Lemma sample_storage_roundtrip (k : string) (v : SampleJson)
    (st : gmap string string) :
  k <> "" ->
  exists it,
    new k = Ok it
    /\ get sampleParse it (set sampleStringify it v st) = Ok v.
Proof.
  intros Hk. exists {| key := k |}. split; [by apply new_nonempty|].
  destruct (sample_json_roundtrip v) as (s & Hs & Hp & Hne).
  by rewrite (get_set_same _ _ _ _ s).
Qed.

Example sample_json_texts :
  (sampleParse "null", sampleParse "true", sampleParse "-17", sampleParse "0",
   sampleParse "", sampleParse "undefined", sampleStringify (JNum (-17)))
  = (Ok JNull, Ok (JBool true), Ok (JNum (-17)), Ok (JNum 0),
     Throw (SyntaxError "Unexpected token"),
     Throw (SyntaxError "Unexpected token"), Some "-17").
Proof. vm_compute. reflexivity. Qed.

(** A stored empty string counts as unset. *)
Example get_empty_string :
  get sampleParse {| key := "k" |} {[ "k" := "" ]}
  = Throw (ReferenceError "Raw data not set").
Proof. reflexivity. Qed.

End StorageItemFacts.

(** ** Tiling and view box *)

Module ViewportFacts.
Import Js Geometry Viewport.

Lemma cos_PI6_sqr : (cos (PI / 6) * cos (PI / 6) = 3 / 4)%R.
Proof.
  rewrite cos_PI6.
  replace (sqrt 3 / 2 * (sqrt 3 / 2))%R with (sqrt 3 * sqrt 3 / 4)%R by lra.
  rewrite sqrt_sqrt by lra. lra.
Qed.

Lemma cos_PI6_pos : (0 < cos (PI / 6))%R.
Proof.
  rewrite cos_PI6. apply Rdiv_lt_0_compat; [|lra].
  apply sqrt_lt_R0. lra.
Qed.

Lemma consistent_cadence_pos (m : Metrics) : consistent m -> (0 < cadence m)%R.
Proof.
  intros (Hs & Hc & _). rewrite Hc.
  apply Rmult_lt_0_compat; [done|apply cos_PI6_pos].
Qed.

Lemma consistent_constructed : consistent constructed.
Proof. unfold consistent, constructed; cbn. repeat split; lra. Qed.

Lemma consistent_withLayout (m : Metrics) (rot ev : bool) (nQuols nRows : R) :
  consistent m -> consistent (withLayout m rot ev nQuols nRows).
Proof. done. Qed.

(** Adjacent rows (columns) are staggered the other way. *)
Lemma shifted_succ (m : Metrics) (i : Z) : shifted m (i + 1) = negb (shifted m i).
Proof.
  unfold shifted. rewrite !GeometryFacts.abs_rem_2, !Zmod_odd.
  rewrite Z.add_1_r, Z.odd_succ, <- Z.negb_odd.
  by destruct (Z.odd i), (even m).
Qed.

Lemma shifted_pred (m : Metrics) (i : Z) : shifted m (i - 1) = negb (shifted m i).
Proof.
  rewrite <- (negb_involutive (shifted m (i - 1))), <- shifted_succ.
  by replace (i - 1 + 1) with i by lia.
Qed.

Lemma coordinates_shifted (m : Metrics) (q r : Z) :
  coordinates m q r =
    (((if rotated m then crossPitch m else mainPitch m) * IZR q
      + (if negb (rotated m) && shifted m r then cadence m else 0))%R,
     (height m - (if rotated m then mainPitch m else crossPitch m) * IZR r
      - (if rotated m && shifted m q then cadence m else 0))%R).
Proof. reflexivity. Qed.

(** The staggered grid is a hexagonal tiling: with the metrics the
    constructor sets up, every one of the six cells around a cell has its
    centre at the same distance from the centre of that cell, the main
    pitch, whatever the orientation and the offset parity. *)
Lemma neighbours_NoDup (m : Metrics) (q r : Z) :
  length (neighbours m q r) = 6%nat
  /\ NoDup (neighbours m q r)
  /\ ~ ((q, r) ∈ neighbours m q r).
Proof.
  unfold neighbours.
  destruct (rotated m), (shifted m q), (shifted m r);
    (split; [reflexivity|]); split.
  all: repeat (apply NoDup_cons_2; [|]); try apply NoDup_nil_2.
  all: rewrite ?elem_of_cons, ?elem_of_nil.
  all: intros H; repeat (destruct H as [H|H]); try done; injection H; lia.
Qed.

Lemma neighbours_at_pitch (m : Metrics) (q r : Z) :
  consistent m ->
  Forall (fun n => dist2 (coordinates m n.1 n.2) (coordinates m q r)
                   = (mainPitch m * mainPitch m)%R)
    (neighbours m q r).
Proof.
  intros (Hs & Hc & Hm & Hx).
  pose proof cos_PI6_sqr as Hcos.
  assert (cadence m * cadence m = 3 / 4 * (size m * size m))%R as Hcc.
  { rewrite Hc.
    replace (size m * cos (PI / 6) * (size m * cos (PI / 6)))%R
      with (size m * size m * (cos (PI / 6) * cos (PI / 6)))%R by lra.
    rewrite Hcos. lra. }
  unfold neighbours, dist2.
  destruct (rotated m) eqn:Hr.
  - destruct (shifted m q) eqn:Hq.
    all: repeat (constructor; [cbn [fst snd]|]); try constructor.
    all: rewrite !coordinates_shifted, Hr; cbn [fst snd negb andb].
    all: rewrite ?shifted_succ, ?shifted_pred, ?Hq; cbn [negb].
    all: rewrite ?plus_IZR, ?minus_IZR, Hm, Hx; nra.
  - destruct (shifted m r) eqn:Hq.
    all: repeat (constructor; [cbn [fst snd]|]); try constructor.
    all: rewrite !coordinates_shifted, Hr; cbn [fst snd negb andb].
    all: rewrite ?shifted_succ, ?shifted_pred, ?Hq; cbn [negb].
    all: rewrite ?plus_IZR, ?minus_IZR, Hm, Hx; nra.
Qed.

(** X1: with the metrics the constructor sets up, the staggered grid is a
    hexagonal tiling: the six cells around any cell are six different
    cells, and the centre of each is at the same distance, the main pitch,
    from the centre of that cell, for both orientations and both offset
    parities. *)
Theorem neighbours_equidistant (m : Metrics) (q r : Z) :
  consistent m ->
  length (neighbours m q r) = 6%nat
  /\ NoDup (neighbours m q r)
  /\ ~ ((q, r) ∈ neighbours m q r)
  /\ Forall (fun n => dist2 (coordinates m n.1 n.2) (coordinates m q r)
                      = (mainPitch m * mainPitch m)%R)
       (neighbours m q r).
Proof.
  intros Hm. destruct (neighbours_NoDup m q r) as (H1 & H2 & H3).
  repeat split; try done. by apply neighbours_at_pitch.
Qed.

(** The theorem at the metrics of a fresh component, for the cell (2, -3). *)
Lemma neighbours_equidistant_witness :
  Forall (fun n => dist2 (coordinates constructed n.1 n.2)
                     (coordinates constructed 2 (-3))
                   = (mainPitch constructed * mainPitch constructed)%R)
    [ (1, -3); (3, -3); (2, -4); (2, -2); (3, -4); (3, -2) ].
Proof.
  exact (proj2 (proj2 (proj2
           (neighbours_equidistant constructed 2 (-3) consistent_constructed)))).
Defined.

(** The bounds of a layout with a cell, with the cells they enclose. *)
Lemma corners_enclose (d0 : Layout.HexDefinition) (l : list Layout.HexDefinition) :
  exists a b c e,
    fold_left Layout.cornerStep (d0 :: l) Layout.initialCorners
    = {| Layout.min := (Fin a, Fin b); Layout.max := (Fin c, Fin e) |}
    /\ Forall (fun d => a <= Layout.q d <= c /\ b <= Layout.r d <= e) (d0 :: l).
Proof.
  destruct (BoundsFacts.corners_nonempty_finite d0 l) as (a & b & c & e & E).
  exists a, b, c, e. split; [done|].
  cbn in E. apply BoundsFacts.fold_cornerStep_bounds in E as [Hb Hall].
  constructor; [lia|done].
Qed.

(** A cell within the bounds is projected into the view box. *)
Lemma in_viewBox (m : Metrics) (rot ev : bool) (a b c e q r : Z) :
  consistent m -> a <= q <= c -> b <= r <= e ->
  inViewBox
    (viewBox (withLayout m rot ev (IZR (c + - a + 1)) (IZR (e + - b + 1))) a e)
    (coordinates (withLayout m rot ev (IZR (c + - a + 1)) (IZR (e + - b + 1)))
       q r).
Proof.
  intros Hm [Hq1 Hq2] [Hr1 Hr2].
  pose proof (consistent_cadence_pos m Hm) as Hcad.
  destruct Hm as (Hs & Hc & Hmp & Hxp).
  unfold inViewBox, viewBox, originShift, padding.
  rewrite !coordinates_shifted.
  cbn [withLayout rotated even size cadence mainPitch crossPitch height width
       fst snd].
  unfold mainDimension, crossDimension.
  apply IZR_le in Hq1, Hq2, Hr1, Hr2.
  rewrite !plus_IZR, !opp_IZR.
  destruct rot; cbn [negb andb fst snd];
    repeat match goal with |- context [if shifted ?x ?y then _ else _] =>
      destruct (shifted x y) end;
    rewrite Hmp, Hxp; repeat split; nra.
Qed.

(** X2: for a layout with at least one cell, the centre of every hex lies
    inside the view box that [connectedCallback] computes from the bounds,
    the width and the height [loadLayout] derives. *)
Theorem hexes_in_viewBox (m : Metrics) (j : Layout.HexJson) :
  consistent m ->
  Layout.hexes j <> [] ->
  exists l qMin rMin qMax rMax nq nr,
    Layout.loadLayout (Some j) = Ok l
    /\ Layout.corners l
       = {| Layout.min := (Fin qMin, Fin rMin);
            Layout.max := (Fin qMax, Fin rMax) |}
    /\ Layout.nQuols l = Fin nq
    /\ Layout.nRows l = Fin nr
    /\ Forall (fun d =>
         inViewBox
           (viewBox (withLayout m (Layout.rotated l) (Layout.even l)
                       (IZR nq) (IZR nr)) qMin rMax)
           (coordinates (withLayout m (Layout.rotated l) (Layout.even l)
                           (IZR nq) (IZR nr))
              (Layout.q d.2) (Layout.r d.2)))
         (Layout.hexes j).
Proof.
  intros Hm Hne.
  destruct (Layout.hexes j) as [|[k0 d0] l0] eqn:Hj; [done|].
  destruct (corners_enclose d0 (map snd l0)) as (a & b & c & e & E & Hall).
  eexists _, a, b, c, e, (c + - a + 1), (e + - b + 1).
  split; [reflexivity|]. cbn [Layout.corners Layout.nQuols Layout.nRows].
  rewrite Hj. change (map snd ((k0, d0) :: l0)) with (d0 :: map snd l0).
  rewrite E. cbn [Layout.min Layout.max fst snd add sub neg].
  split; [done|]. split; [done|]. split; [done|].
  change (d0 :: map snd l0) with (map snd ((k0, d0) :: l0)) in Hall.
  rewrite Forall_forall in Hall. apply Forall_forall. intros [k d] Hd.
  cbn [Layout.rotated Layout.even snd].
  assert (d ∈ map snd ((k0, d0) :: l0)) as Hd'.
  { apply list_elem_of_fmap. by exists (k, d). }
  destruct (Hall d Hd') as [Hq Hr].
  by apply in_viewBox.
Qed.

(** The theorem at the sample layout and the metrics of a fresh
    component. *)
Lemma hexes_in_viewBox_witness :
  exists l qMin rMin qMax rMax nq nr,
    Layout.loadLayout (Some Layout.sampleLayout) = Ok l
    /\ Layout.corners l
       = {| Layout.min := (Fin qMin, Fin rMin);
            Layout.max := (Fin qMax, Fin rMax) |}
    /\ Layout.nQuols l = Fin nq
    /\ Layout.nRows l = Fin nr
    /\ Forall (fun d =>
         inViewBox
           (viewBox (withLayout constructed (Layout.rotated l) (Layout.even l)
                       (IZR nq) (IZR nr)) qMin rMax)
           (coordinates (withLayout constructed (Layout.rotated l)
                           (Layout.even l) (IZR nq) (IZR nr))
              (Layout.q d.2) (Layout.r d.2)))
         (Layout.hexes Layout.sampleLayout).
Proof.
  apply (hexes_in_viewBox constructed Layout.sampleLayout consistent_constructed).
  discriminate.
Defined.

End ViewportFacts.

(** ** More on the layout *)

Module LayoutMoreFacts.
Import Js Layout.

Lemma Math_min_comm_assoc (x y z : Num) :
  Math_min (Math_min x y) z = Math_min (Math_min x z) y.
Proof. destruct x, y, z; cbn; f_equal; lia. Qed.

Lemma Math_max_comm_assoc (x y z : Num) :
  Math_max (Math_max x y) z = Math_max (Math_max x z) y.
Proof. destruct x, y, z; cbn; f_equal; lia. Qed.

Lemma cornerStep_comm (acc : Corners) (d1 d2 : HexDefinition) :
  cornerStep (cornerStep acc d1) d2 = cornerStep (cornerStep acc d2) d1.
Proof.
  unfold cornerStep; cbn.
  f_equal; f_equal; apply Math_min_comm_assoc || apply Math_max_comm_assoc.
Qed.

Lemma fold_cornerStep_Permutation (l1 l2 : list HexDefinition) (acc : Corners) :
  l1 ≡ₚ l2 -> fold_left cornerStep l1 acc = fold_left cornerStep l2 acc.
Proof.
  intros Hp. revert acc.
  induction Hp as [|x l1 l2 _ IH|x y l|l1 l2 l3 _ IH1 _ IH2]; intros acc; cbn.
  - done.
  - apply IH.
  - by rewrite cornerStep_comm.
  - by rewrite IH1.
Qed.

(** Each finite bound is the start value or the coordinate of a cell. *)
Lemma fold_cornerStep_attained (l : list HexDefinition) (a b c e a' b' c' e' : Z) :
  fold_left cornerStep l {| min := (Fin a, Fin b); max := (Fin c, Fin e) |}
  = {| min := (Fin a', Fin b'); max := (Fin c', Fin e') |} ->
  (a' = a \/ exists d, d ∈ l /\ q d = a')
  /\ (b' = b \/ exists d, d ∈ l /\ r d = b')
  /\ (c' = c \/ exists d, d ∈ l /\ q d = c')
  /\ (e' = e \/ exists d, d ∈ l /\ r d = e').
Proof.
  revert a b c e. induction l as [|d l IH]; intros a b c e H; cbn in H.
  - injection H as -> -> -> ->. auto.
  - apply IH in H as (Ha & Hb & Hc & He).
    assert (∀ (f : HexDefinition -> Z) x, (exists d', d' ∈ l /\ f d' = x) ->
              exists d', d' ∈ d :: l /\ f d' = x) as Hin.
    { intros f x (d' & Hd & E). exists d'. split; [by apply elem_of_cons; right|done]. }
    assert (∀ (f : HexDefinition -> Z), exists d', d' ∈ d :: l /\ f d' = f d) as Hhd.
    { intros f. exists d. split; [apply elem_of_cons; by left|done]. }
    repeat split.
    + destruct Ha as [->|Ha]; [|by right; apply (Hin q)].
      destruct (Z.min_spec a (q d)) as [[_ ->]|[_ ->]]; [by left|right; apply (Hhd q)].
    + destruct Hb as [->|Hb]; [|by right; apply (Hin r)].
      destruct (Z.min_spec b (r d)) as [[_ ->]|[_ ->]]; [by left|right; apply (Hhd r)].
    + destruct Hc as [->|Hc]; [|by right; apply (Hin q)].
      destruct (Z.max_spec c (q d)) as [[_ ->]|[_ ->]]; [right; apply (Hhd q)|by left].
    + destruct He as [->|He]; [|by right; apply (Hin r)].
      destruct (Z.max_spec e (r d)) as [[_ ->]|[_ ->]]; [right; apply (Hhd r)|by left].
Qed.

(** X3: for a layout with at least one cell, the corners [loadLayout]
    computes are the exact bounds of the cells: every cell lies within
    them, each of the four bounds is the coordinate of some cell, and the
    column and row counts are the spans of the bounds plus one, hence at
    least one. *)
Theorem corners_exact (j : HexJson) :
  hexes j <> [] ->
  exists l qMin rMin qMax rMax,
    loadLayout (Some j) = Ok l
    /\ corners l = {| min := (Fin qMin, Fin rMin); max := (Fin qMax, Fin rMax) |}
    /\ Forall (fun d => qMin <= q d.2 <= qMax /\ rMin <= r d.2 <= rMax) (hexes j)
    /\ Exists (fun d => q d.2 = qMin) (hexes j)
    /\ Exists (fun d => r d.2 = rMin) (hexes j)
    /\ Exists (fun d => q d.2 = qMax) (hexes j)
    /\ Exists (fun d => r d.2 = rMax) (hexes j)
    /\ nQuols l = Fin (qMax - qMin + 1)
    /\ nRows l = Fin (rMax - rMin + 1)
    /\ 1 <= qMax - qMin + 1
    /\ 1 <= rMax - rMin + 1.
Proof.
  intros Hne. destruct (hexes j) as [|[k0 d0] l0] eqn:Hj; [done|].
  destruct (BoundsFacts.corners_nonempty_finite d0 (map snd l0))
    as (a & b & c & e & E).
  pose proof E as E'. cbn in E'.
  pose proof (BoundsFacts.fold_cornerStep_bounds _ _ _ _ _ _ _ _ _ E')
    as [Hb Hall].
  pose proof (fold_cornerStep_attained _ _ _ _ _ _ _ _ _ E')
    as (Ha1 & Ha2 & Ha3 & Ha4).
  eexists _, a, b, c, e.
  split; [reflexivity|]. cbn [corners nQuols nRows].
  rewrite Hj. change (map snd ((k0, d0) :: l0)) with (d0 :: map snd l0).
  rewrite E. cbn [min max fst snd add sub neg].
  assert (∀ (f : HexDefinition -> Z) x,
            (x = f d0 \/ exists d, d ∈ map snd l0 /\ f d = x) ->
            Exists (fun d => f d.2 = x) ((k0, d0) :: l0)) as Hex.
  { intros f x [->|(d & Hd & Hx)]; [by left|]. right.
    apply list_elem_of_fmap in Hd as ([k d'] & -> & Hd).
    apply Exists_exists. by exists (k, d'). }
  split; [done|]. split.
  { constructor; [cbn; lia|].
    rewrite Forall_fmap in Hall. exact Hall. }
  split; [by apply (Hex q)|]. split; [by apply (Hex r)|].
  split; [by apply (Hex q)|]. split; [by apply (Hex r)|].
  split; [f_equal; lia|]. split; [f_equal; lia|]. lia.
Qed.

(** The theorem at the sample layout. *)
Lemma corners_exact_witness :
  exists l qMin rMin qMax rMax,
    loadLayout (Some sampleLayout) = Ok l
    /\ corners l = {| min := (Fin qMin, Fin rMin); max := (Fin qMax, Fin rMax) |}
    /\ Forall (fun d => qMin <= q d.2 <= qMax /\ rMin <= r d.2 <= rMax)
         (hexes sampleLayout)
    /\ Exists (fun d => q d.2 = qMin) (hexes sampleLayout)
    /\ Exists (fun d => r d.2 = rMin) (hexes sampleLayout)
    /\ Exists (fun d => q d.2 = qMax) (hexes sampleLayout)
    /\ Exists (fun d => r d.2 = rMax) (hexes sampleLayout)
    /\ nQuols l = Fin (qMax - qMin + 1)
    /\ nRows l = Fin (rMax - rMin + 1)
    /\ 1 <= qMax - qMin + 1
    /\ 1 <= rMax - rMin + 1.
Proof. apply (corners_exact sampleLayout). discriminate. Defined.

(** X4: the corners and the column and row counts do not depend on the
    order the layout lists its cells in. *)
Theorem corners_order_independent (j j' : HexJson) :
  hexes j ≡ₚ hexes j' ->
  exists l l',
    loadLayout (Some j) = Ok l
    /\ loadLayout (Some j') = Ok l'
    /\ corners l = corners l'
    /\ nQuols l = nQuols l'
    /\ nRows l = nRows l'.
Proof.
  intros Hp. eexists _, _. split; [reflexivity|]. split; [reflexivity|].
  cbn [corners nQuols nRows].
  rewrite (fold_cornerStep_Permutation (map snd (hexes j)) (map snd (hexes j')))
    by (by apply fmap_Permutation).
  done.
Qed.

(** The theorem at the sample layout and the same cells listed backwards. *)
Lemma corners_order_independent_witness :
  exists l l',
    loadLayout (Some sampleLayout) = Ok l
    /\ loadLayout (Some {| layout := "odd-r";
                           hexes := rev (hexes sampleLayout) |}) = Ok l'
    /\ corners l = corners l'
    /\ nQuols l = nQuols l'
    /\ nRows l = nRows l'.
Proof.
  apply (corners_order_independent sampleLayout
           {| layout := "odd-r"; hexes := rev (hexes sampleLayout) |}).
  apply Permutation_rev.
Defined.

(** X5: the sort of the [hexes] getter is stable: the cells at one
    coordinate come out in the order the layout lists them in, so that of
    two cells drawn at the same place the one listed later is drawn
    later, on top. *)
Theorem same_coordinate_keeps_listing_order (j : HexJson) (p : Z * Z) :
  exists out,
    get_hexes (Some j) = Ok out
    /\ filter (fun d => coordOf d = p) out
       = map withKey (filter (fun e => coordOf e.2 = p) (hexes j)).
Proof.
  eexists. split; [reflexivity|].
  rewrite LayoutFacts.hexes_stable.
  induction (hexes j) as [|e l IH]; [done|].
  cbn [map]. rewrite !filter_cons. cbn [withKey coordOf q r] in *.
  destruct (decide _); cbn [map]; by rewrite IH.
Qed.

End LayoutMoreFacts.

(** ** Rendering and the life of a component *)

Module RenderFacts.
Import Js Binding BindingFacts BindFacts Lifecycle.

Lemma contextOf_key (d : Layout.HexDefinition) :
  contextOf d !! "key" = Layout.props d !! "key".
Proof. unfold contextOf. by rewrite !lookup_insert_ne. Qed.

(** The key a hex is rendered with: the key of its layout entry, unless the
    definition has a field named [key] of its own. *)
Lemma withKey_key (k : string) (d : Layout.HexDefinition) :
  Layout.props (Layout.withKey (k, d)) !! "key"
  = Some (default (VStr k) (Layout.props d !! "key")).
Proof.
  cbn. rewrite lookup_union. destruct (Layout.props d !! "key"); by cbn.
Qed.

(** What [connectedCallback] does on an element without a shadow root. *)
Lemma connectedCallback_fresh (j : Layout.HexJson) (hm : HexMap) :
  shadowRoot hm = None ->
  exists loaded m,
    Layout.loadLayout (Some j) = Ok loaded
    /\ connectedCallback (Some j) hm
       = (Ok tt,
          set_connected true
            (set_shadowRoot
               (Some (map (fun d => generateHex hm
                                      (Geometry.coordinates m (Layout.q d) (Layout.r d))
                                      (contextOf d))
                        (toSorted Layout.compareHexes
                           (map Layout.withKey (Layout.hexes j)))))
               (_updateHexes
                  (set_shadowRoot (Some [])
                     (set_metrics m (connectedCallback_begin hm)))))).
Proof.
  intros Hs. eexists _, _. split; [reflexivity|].
  unfold connectedCallback, connectedCallback_resume. cbn.
  rewrite Hs. cbn. reflexivity.
Qed.

(** The first rendering, in full. *)
Lemma first_rendering (j : Layout.HexJson) (hm : HexMap) :
  shadowRoot hm = None ->
  connected hm = false ->
  exists hm' out cells,
    connectedCallback (Some j) hm = (Ok tt, hm')
    /\ Layout.get_hexes (Some j) = Ok out
    /\ shadowRoot hm' = Some cells
    /\ connected hm' = true
    /\ data hm' = data hm
    /\ timeouts hm' = timeouts hm ++ match data hm with Some _ => [250] | None => [] end
    /\ length cells = length (Layout.hexes j)
    /\ Forall2 (fun d hex =>
         context hex = contextOf d
         /\ attributes hex !! "data-key"
            = Some (from_option toString "undefined" (Layout.props d !! "key"))
         /\ text hex = labelSpec hm (contextOf d)
         /\ title hex = titleSpec hm (contextOf d)
         /\ style hex = ∅
         /\ transform hex
            = Geometry.coordinates (metrics hm') (Layout.q d) (Layout.r d))
         out cells
    /\ Forall (fun d => exists k def,
         (k, def) ∈ Layout.hexes j
         /\ Layout.q d = Layout.q def /\ Layout.r d = Layout.r def
         /\ Layout.props d !! "key"
            = Some (default (VStr k) (Layout.props def !! "key")))
         out.
Proof.
  intros Hs Hc.
  destruct (connectedCallback_fresh j hm Hs) as (loaded & m & Hl & E).
  eexists _, _, _. split; [exact E|]. split; [reflexivity|].
  set (out := toSorted _ _).
  assert (_updateHexes (set_shadowRoot (Some [])
            (set_metrics m (connectedCallback_begin hm)))
          = set_timeouts (timeouts hm ++ match data hm with Some _ => [250] | None => [] end)
              (set_shadowRoot (Some [])
                 (set_metrics m (connectedCallback_begin hm)))) as ->.
  { unfold _updateHexes. cbn. rewrite Hc. cbn.
    destruct (data hm); [done|]. destruct hm; cbn. by rewrite app_nil_r. }
  cbn. split; [done|]. split; [done|]. split; [done|]. split; [done|].
  split.
  { rewrite length_map. unfold out.
    by rewrite SortingFacts.toSorted_Permutation, length_map. }
  split.
  { apply Forall2_fmap_r, Forall_Forall2_diag, Forall_forall. intros d _.
    cbn. rewrite contextOf_key. repeat split; done. }
  apply Forall_forall. intros d Hd. unfold out in Hd.
  rewrite SortingFacts.toSorted_Permutation in Hd.
  apply list_elem_of_fmap in Hd as ([k def] & -> & Hd).
  exists k, def. split; [done|]. split; [done|]. split; [done|].
  apply withKey_key.
Qed.

(** X6: on an element that has no shadow root and is not connected,
    [connectedCallback] with a layout succeeds, marks the component
    connected and renders exactly one hex per cell of the layout, in draw
    order; each hex carries the context of its cell, the label and the
    title the mappers give for it, no style yet, the projection of its
    coordinates, and as [data-key] the key of its layout entry, or the
    field [key] of the definition when it has one.  The dataset is not
    bound yet: when there is one, a retry is queued. *)
Theorem connectedCallback_renders (j : Layout.HexJson) (hm : HexMap) :
  shadowRoot hm = None ->
  connected hm = false ->
  exists hm' out cells,
    connectedCallback (Some j) hm = (Ok tt, hm')
    /\ Layout.get_hexes (Some j) = Ok out
    /\ shadowRoot hm' = Some cells
    /\ connected hm' = true
    /\ data hm' = data hm
    /\ timeouts hm' = timeouts hm ++ match data hm with Some _ => [250] | None => [] end
    /\ length cells = length (Layout.hexes j)
    /\ Forall2 (fun d hex =>
         context hex = contextOf d
         /\ attributes hex !! "data-key"
            = Some (from_option toString "undefined" (Layout.props d !! "key"))
         /\ text hex = labelSpec hm (contextOf d)
         /\ title hex = titleSpec hm (contextOf d)
         /\ style hex = ∅
         /\ transform hex
            = Geometry.coordinates (metrics hm') (Layout.q d) (Layout.r d))
         out cells
    /\ Forall (fun d => exists k def,
         (k, def) ∈ Layout.hexes j
         /\ Layout.q d = Layout.q def /\ Layout.r d = Layout.r def
         /\ Layout.props d !! "key"
            = Some (default (VStr k) (Layout.props def !! "key")))
         out.
Proof. apply first_rendering. Qed.

(** The theorem at the sample layout and a fresh component. *)
Lemma connectedCallback_renders_witness :
  exists hm' out cells,
    connectedCallback (Some Layout.sampleLayout) constructed = (Ok tt, hm')
    /\ Layout.get_hexes (Some Layout.sampleLayout) = Ok out
    /\ shadowRoot hm' = Some cells
    /\ connected hm' = true
    /\ length cells = 5%nat.
Proof.
  destruct (connectedCallback_renders Layout.sampleLayout constructed
              eq_refl eq_refl)
    as (hm' & out & cells & H1 & H2 & H3 & H4 & _ & _ & H5 & _).
  exists hm', out, cells. repeat split; done.
Defined.



(** X8: an element that already has a shadow root cannot be connected
    again: [connectedCallback] throws, whatever the body of the response,
    and leaves the rendered hexes, the dataset, the retry queue and the
    [connected] flag as they are; after a [disconnectedCallback] the
    component therefore stays unconnected. *)
Theorem reconnect_throws_and_keeps_state (body : option Layout.HexJson)
    (hm : HexMap) (cells : list HexContainer) :
  shadowRoot hm = Some cells ->
  (exists e, (connectedCallback body hm).1 = Throw e)
  /\ shadowRoot (connectedCallback body hm).2 = Some cells
  /\ connected (connectedCallback body hm).2 = connected hm
  /\ data (connectedCallback body hm).2 = data hm
  /\ timeouts (connectedCallback body hm).2 = timeouts hm
  /\ connected
       (connectedCallback body (disconnectedCallback hm)).2 = false.
Proof.
  intros Hs. unfold connectedCallback.
  destruct body as [j|]; cbn.
  - unfold connectedCallback_resume. cbn. rewrite Hs. cbn. eauto 10.
  - eauto 10.
Qed.

(** The theorem at the component of the end-to-end example. *)
Lemma reconnect_throws_and_keeps_state_witness :
  (connectedCallback (Some endToEndLayout)
     (disconnectedCallback endToEndConnected.2)).1
  = Throw (DOMException "NotSupportedError")
  /\ connected
       (connectedCallback (Some endToEndLayout)
          (disconnectedCallback endToEndConnected.2)).2 = false.
Proof.
  destruct (shadowRoot endToEndConnected.2) as [cells|] eqn:Hs;
    [|vm_compute in Hs; discriminate].
  destruct (reconnect_throws_and_keeps_state (Some endToEndLayout)
              endToEndConnected.2 cells Hs) as (_ & _ & _ & _ & _ & H).
  split; [vm_compute; reflexivity|exact H].
Defined.

(** *** Successive datasets *)






(** *** Clearing the dataset *)

Lemma fireTimeout_no_data (hm : HexMap) :
  data hm = None -> fireTimeout hm = set_timeouts (tail (timeouts hm)) hm.
Proof.
  intros Hd. unfold fireTimeout.
  destruct hm as [m dt sr ls ts ss c ic [|t rest]]; cbn in *; subst; done.
Qed.

Lemma tail_drop {A : Type} (n : nat) (l : list A) :
  tail (drop n l) = drop (S n) l.
Proof.
  revert l. induction n as [|n IH]; intros [|x l]; cbn; try done.
Qed.

Lemma drained (n : nat) (hm : HexMap) :
  data hm = None ->
  Nat.iter n fireTimeout hm = set_timeouts (drop n (timeouts hm)) hm.
Proof.
  intros Hd. induction n as [|n IH].
  - by destruct hm.
  - change (Nat.iter (S n) fireTimeout hm)
      with (fireTimeout (Nat.iter n fireTimeout hm)).
    rewrite IH, fireTimeout_no_data by done. cbn.
    unfold set_timeouts; cbn. f_equal.
    apply tail_drop.
Qed.

(** X10: assigning no dataset ([undefined]) to a component queues no retry
    and writes nothing; and while the component has no dataset, every
    pending retry that fires is used up without queueing another and
    without touching the hexes, so the queue runs empty, connected or
    not. *)
Theorem cleared_dataset_stops_polling (hm : HexMap) (n : nat) :
  shadowRoot (set_data None hm) = shadowRoot hm
  /\ timeouts (set_data None hm) = timeouts hm
  /\ shadowRoot (Nat.iter n fireTimeout (set_data None hm)) = shadowRoot hm
  /\ timeouts (Nat.iter n fireTimeout (set_data None hm))
     = drop n (timeouts hm)
  /\ timeouts (Nat.iter (length (timeouts hm)) fireTimeout (set_data None hm))
     = [].
Proof.
  assert (set_data None hm = set_data_field None hm) as E by done.
  rewrite E. rewrite !drained by done. cbn.
  repeat split; try done. by rewrite drop_all.
Qed.

(** *** Every event *)

Lemma updateHexes_keeps_hexes (hm : HexMap) (cells : list HexContainer) :
  shadowRoot hm = Some cells ->
  exists cells',
    shadowRoot (_updateHexes hm) = Some cells'
    /\ map (fun h => (datasetKey h, text h, transform h)) cells'
       = map (fun h => (datasetKey h, text h, transform h)) cells.
Proof.
  intros Hs. unfold _updateHexes.
  destruct (data hm) as [d|]; [|eauto].
  destruct (connected hm); cbn; rewrite Hs; [|eauto]. cbn.
  eexists. split; [done|].
  rewrite <- list_fmap_compose. apply list_fmap_ext. intros i hex _. cbn.
  by rewrite datasetKey_updateHex.
Qed.

Lemma step_keeps_hexes (ev : Event) (hm : HexMap) (cells : list HexContainer) :
  shadowRoot hm = Some cells ->
  exists cells',
    shadowRoot (step hm ev) = Some cells'
    /\ map (fun h => (datasetKey h, text h, transform h)) cells'
       = map (fun h => (datasetKey h, text h, transform h)) cells.
Proof.
  intros Hs. destruct ev as [d| |body|]; cbn.
  - by apply updateHexes_keeps_hexes.
  - unfold fireTimeout. destruct (timeouts hm); [eauto|].
    by apply updateHexes_keeps_hexes.
  - unfold connectedCallback. destruct body as [j|]; cbn; [|eauto].
    unfold connectedCallback_resume. cbn. rewrite Hs. cbn. eauto.
  - eauto.
Qed.

(** X11: once hexes are rendered, no later event (a dataset assignment, a
    timeout, a [connectedCallback] with any layout, a
    [disconnectedCallback]) adds, removes or reorders a hex, or changes the
    key, the label or the position of one: the layout of a component is
    fixed by its first rendering. *)
Theorem rendered_hexes_are_fixed (evs : list Event) (hm : HexMap)
    (cells : list HexContainer) :
  shadowRoot hm = Some cells ->
  exists cells',
    shadowRoot (run evs hm) = Some cells'
    /\ length cells' = length cells
    /\ map (fun h => (datasetKey h, text h, transform h)) cells'
       = map (fun h => (datasetKey h, text h, transform h)) cells.
Proof.
  revert hm cells. induction evs as [|ev evs IH]; intros hm cells Hs.
  - exists cells. by cbn.
  - destruct (step_keeps_hexes ev hm cells Hs) as (cells1 & Hs1 & E1).
    destruct (IH (step hm ev) cells1 Hs1) as (cells' & Hs' & Hl & E').
    exists cells'. split; [exact Hs'|].
    split; [|by rewrite E', E1].
    rewrite Hl. apply (f_equal length) in E1. by rewrite !length_map in E1.
Qed.

(** The theorem at the component of the end-to-end example, for a new
    layout, a dataset, a removal and a timeout. *)
Lemma rendered_hexes_are_fixed_witness :
  exists cells',
    shadowRoot
      (run [ Connect (Some Layout.sampleLayout); Assign (Some sampleData);
             Disconnect; Fire ] endToEndBound) = Some cells'
    /\ length cells' = 1%nat.
Proof.
  destruct (shadowRoot endToEndBound) as [cells|] eqn:Hs;
    [|vm_compute in Hs; discriminate].
  destruct (rendered_hexes_are_fixed
              [ Connect (Some Layout.sampleLayout); Assign (Some sampleData);
                Disconnect; Fire ] endToEndBound cells Hs)
    as (cells' & H1 & H2 & _).
  exists cells'. split; [exact H1|]. rewrite H2.
  assert (length <$> shadowRoot endToEndBound = Some 1%nat) as E
    by (vm_compute; reflexivity).
  rewrite Hs in E. by injection E.
Defined.

(** X12: a component that starts without shadow root and unconnected is
    never marked connected without a rendered tree: whatever the events,
    [connected] implies that the shadow tree exists, so a bind that runs
    always finds the hexes. *)
Theorem connected_implies_rendered (evs : list Event) (hm : HexMap) :
  (connected hm = true -> is_Some (shadowRoot hm)) ->
  connected (run evs hm) = true -> is_Some (shadowRoot (run evs hm)).
Proof.
  revert hm. induction evs as [|ev evs IH]; intros hm Hinv; [done|].
  cbn. apply IH. clear IH evs.
  destruct (shadowRoot hm) as [cells|] eqn:Hs.
  { intros _. destruct (step_keeps_hexes ev hm cells Hs) as (c' & -> & _). done. }
  assert (connected hm = false) as Hc.
  { destruct (connected hm); [|done]. by destruct (Hinv eq_refl). }
  destruct ev as [d| |body|]; cbn.
  - unfold set_data, _updateHexes. cbn. rewrite Hc.
    destruct d; cbn; by rewrite ?Hc.
  - unfold fireTimeout. destruct (timeouts hm); [by rewrite Hc|].
    unfold _updateHexes. cbn. rewrite Hc. destruct (data hm); cbn; by rewrite ?Hc.
  - destruct body as [j|]; [|cbn; by rewrite Hc].
    destruct (connectedCallback_fresh j hm Hs) as (loaded & m & _ & ->).
    cbn. done.
  - done.
Qed.

(** The theorem at a fresh component, for an assignment, a connection and a
    timeout. *)
Lemma connected_implies_rendered_witness :
  is_Some
    (shadowRoot
       (run [ Assign (Some sampleData); Connect (Some Layout.sampleLayout);
              Fire ] constructed)).
Proof.
  apply (connected_implies_rendered
           [ Assign (Some sampleData); Connect (Some Layout.sampleLayout); Fire ]
           constructed).
  - discriminate.
  - vm_compute. reflexivity.
Defined.

End RenderFacts.

(** ** More on the tiered cache *)

Module TieredCacheMoreFacts.
Import Js TieredCache.

Section Cache.
Context {T : Type}.
Context (leafGet : T -> string -> Result (@Value T)).
Context (loadFunction : string -> Result (gmap string (@Value T))).
Context (splitter : string -> list string).

Local Abbreviation get := (get leafGet).
Local Abbreviation descend := (descend leafGet).
Local Abbreviation loader := (loader loadFunction).
Local Abbreviation lookupOne := (lookupOne leafGet loadFunction splitter).

(** X13: a lookup that returned a value can be repeated: the second
    [lookupOne] of the same key returns the same value, makes no load call
    and leaves the cache as it is, whether the first one was answered from
    the cache or by a load. *)
Theorem lookupOne_repeatable (key : string) (c c' : Cache) (v : Value) :
  lookupOne key c = (Ok v, c') ->
  lookupOne key c' = (Ok v, c').
Proof.
  unfold TieredCache.lookupOne, TieredCache.loader.
  destruct (TieredCache.get leafGet (splitter key) c) as [v0|[]] eqn:Hg;
    try (intros [=]; fail).
  - intros [= -> ->]. by rewrite Hg.
  - destruct (loadFunction key) as [loaded|e]; [|intros [=]].
    intros [= Hv <-]. by rewrite Hv.
Qed.

(** X14: a load disturbs the paths under the loaded top-level keys only.
    After a successful [#loader], a path whose first level the loaded
    mapping lacks is answered as before, and a path whose first level the
    loaded mapping has is answered from the loaded entry alone: what the
    cache held under that key counts no more. *)
Theorem load_path_frame (key : string) (c : Cache)
    (loaded : gmap string Value) :
  loadFunction key = Ok loaded ->
  (∀ t rest, loaded !! t = None ->
     get (t :: rest) (loader key c).2 = get (t :: rest) c)
  /\ (∀ t v rest, loaded !! t = Some v ->
        get (t :: rest) (loader key c).2 = descend rest (Ok v)).
Proof.
  intros Hl. unfold TieredCache.loader. rewrite Hl. cbn [snd data].
  split.
  - intros t rest Ht. unfold TieredCache.get. cbn [data].
    rewrite !(TieredCacheFacts.descend_Object leafGet).
    by rewrite lookup_union_r.
  - intros t v rest Ht. unfold TieredCache.get. cbn [data].
    rewrite (TieredCacheFacts.descend_Object leafGet).
    by rewrite (lookup_union_Some_l _ _ _ _ Ht).
Qed.

End Cache.

(** The two theorems at the sample cache. *)
Lemma lookupOne_repeatable_witness :
  sampleLookupOne "a b"
    {| data := {[ "a" := Object {[ "b" := Leaf ["Bee"] ]} ]};
       loads := ["a b"] |}
  = (Ok (Leaf ["Bee"]),
     {| data := {[ "a" := Object {[ "b" := Leaf ["Bee"] ]} ]};
        loads := ["a b"] |}).
Proof.
  apply (lookupOne_repeatable sampleLeafGet sampleLoader defaultSplitter
           "a b" empty).
  vm_compute. reflexivity.
Defined.

Lemma load_path_frame_witness :
  get sampleLeafGet ["x"; "y"]
    (loader sampleLoader "a c"
       {| data := {[ "x" := Object {[ "y" := Leaf ["Why"] ]} ]};
          loads := [] |}).2
  = get sampleLeafGet ["x"; "y"]
      {| data := {[ "x" := Object {[ "y" := Leaf ["Why"] ]} ]}; loads := [] |}.
Proof.
  apply (proj1 (load_path_frame sampleLeafGet sampleLoader "a c" _ _ eq_refl)).
  reflexivity.
Defined.

(** *** The default splitter *)

Local Abbreviation chars := list_ascii_of_string.
Local Abbreviation nowhite :=
  (fun s : string => Forall (fun c => isWhite c = false) (chars s)).











(** A string that is not empty and does not end in white space. *)
Local Abbreviation endsNonWhite :=
  (fun s : string => exists l c, chars s = l ++ [c] /\ isWhite c = false).







End TieredCacheMoreFacts.

(** ** Code lookup *)

Module CodeLookupFacts.
Import Js CodeLookup.

Section Lookup.
Context (fetchJson : string -> Result (gmap string (list string))).

Local Abbreviation load := (load fetchJson).

(** The file of a URL says nothing about a code. *)
Local Abbreviation silent :=
  (fun (code url : string) => ∀ d, fetchJson url = Ok d -> d !! code = None).

Lemma load_app (l1 l2 : list string) (c : CodeLookup) :
  load (l1 ++ l2) c
  = match load l1 c with
    | (Ok _, c1) => load l2 c1
    | (Throw e, c1) => (Throw e, c1)
    end.
Proof.
  revert c. induction l1 as [|url l1 IH]; intros c; cbn; [done|].
  destruct (fetchJson url); [apply IH|done].
Qed.

Lemma load_silent (urls : list string) (c : CodeLookup) (code : string) :
  Forall (silent code) urls -> get code (load urls c).2 = get code c.
Proof.
  revert c. induction urls as [|url urls IH]; intros c H; cbn; [done|].
  apply Forall_cons in H as [Hu H].
  destruct (fetchJson url) as [d|e] eqn:Hf; [|done].
  rewrite IH by done. unfold get; cbn.
  rewrite lookup_union_r; [done|]. by apply Hu.
Qed.

Lemma load_fetched (urls : list string) (c : CodeLookup) :
  match (load urls c).1 with
  | Ok _ => fetched (load urls c).2 = fetched c ++ urls
  | Throw _ =>
      exists l1 url l2,
        urls = l1 ++ url :: l2
        /\ fetched (load urls c).2 = fetched c ++ l1 ++ [url]
  end.
Proof.
  revert c. induction urls as [|url urls IH]; intros c; cbn.
  - by rewrite app_nil_r.
  - destruct (fetchJson url) as [d|e] eqn:Hf; cbn.
    + specialize (IH {| lookup := d ∪ lookup c; fetched := fetched c ++ [url] |}).
      destruct (load urls _).1; cbn in *.
      * by rewrite IH, <- app_assoc.
      * destruct IH as (l1 & u & l2 & -> & E).
        exists (url :: l1), u, l2. split; [done|].
        rewrite E. cbn. by rewrite <- app_assoc.
    + exists [], url, urls. done.
Qed.

(** X16: after a [load] that succeeded, [get] answers a code with the
    value of the last URL of the list whose file has the code (files loaded
    later override earlier ones and what was there, code by code); a code
    that no file of the list has is answered as before the load. *)
Theorem load_last_wins (urls : list string) (c c' : CodeLookup) (code : string) :
  load urls c = (Ok tt, c') ->
  (∀ l1 url l2 d v,
     urls = l1 ++ url :: l2 -> fetchJson url = Ok d -> d !! code = Some v ->
     Forall (silent code) l2 ->
     get code c' = Some v)
  /\ (Forall (silent code) urls -> get code c' = get code c)
  /\ fetched c' = fetched c ++ urls.
Proof.
  intros Hl. split; [|split].
  - intros l1 url l2 d v -> Hf Hv Hs.
    rewrite load_app in Hl.
    destruct (load l1 c) as [[[]|e] c1]; [|discriminate].
    cbn in Hl. rewrite Hf in Hl.
    assert (c' = (load l2 {| lookup := d ∪ lookup c1;
                             fetched := fetched c1 ++ [url] |}).2) as ->
      by (by rewrite Hl).
    rewrite load_silent by done. unfold get; cbn.
    by apply lookup_union_Some_l.
  - intros Hs. assert (c' = (load urls c).2) as -> by (by rewrite Hl).
    by apply load_silent.
  - pose proof (load_fetched urls c) as H. by rewrite Hl in H.
Qed.

(** X17: loading one list of URLs after another is loading the two lists
    in one call, as long as the first list loads without error. *)
Theorem load_composes (l1 l2 : list string) (c c1 : CodeLookup) :
  load l1 c = (Ok tt, c1) ->
  load (l1 ++ l2) c = load l2 c1.
Proof. intros H. by rewrite load_app, H. Qed.

(** X18: when the fetch of a URL fails, [load] stops there with the
    exception: the URLs after it are not fetched, and the lookup keeps all
    that the files before it brought. *)
Theorem load_failure_keeps_earlier (l1 l2 : list string) (url : string)
    (c c1 : CodeLookup) (e : Error) :
  load l1 c = (Ok tt, c1) ->
  fetchJson url = Throw e ->
  load (l1 ++ url :: l2) c
  = (Throw e, {| lookup := lookup c1; fetched := fetched c ++ l1 ++ [url] |}).
Proof.
  intros H1 Hf. rewrite load_app, H1. cbn. rewrite Hf.
  pose proof (load_fetched l1 c) as Hl. rewrite H1 in Hl. cbn in Hl.
  by rewrite Hl, <- app_assoc.
Qed.

(** X19: [load] never removes a code: a code that [get] answers keeps
    being answered after any [load], also one that ends with an
    exception (its value may change). *)
Theorem load_keeps_codes (urls : list string) (c : CodeLookup) (code : string) :
  is_Some (get code c) -> is_Some (get code (load urls c).2).
Proof.
  revert c. induction urls as [|url urls IH]; intros c H; cbn; [done|].
  destruct (fetchJson url) as [d|e]; [|done].
  apply IH. unfold get in *; cbn.
  rewrite lookup_union. destruct H as [v ->].
  destruct (d !! code); done.
Qed.

End Lookup.

(** The theorems at the sample files. *)
Lemma load_last_wins_witness :
  get "E1" (load sampleFetch ["/lookup/wards.json"; "/lookup/names.json"] new).2
  = Some ["Ward 1"; "Calder"].
Proof.
  destruct (load sampleFetch ["/lookup/wards.json"; "/lookup/names.json"] new)
    as [res c'] eqn:Hl.
  assert (res = Ok tt) as -> by (vm_compute in Hl; by injection Hl as <- _).
  apply (proj1 (load_last_wins sampleFetch _ new c' "E1" Hl)
           ["/lookup/wards.json"] "/lookup/names.json" []
           {[ "E1" := ["Ward 1"; "Calder"] ]}).
  - reflexivity.
  - reflexivity.
  - reflexivity.
  - constructor.
Defined.

Lemma load_composes_witness :
  load sampleFetch (["/lookup/wards.json"] ++ ["/lookup/names.json"]) new
  = load sampleFetch ["/lookup/names.json"]
      {| lookup := {[ "E1" := ["Ward one"]; "E2" := ["Ward two"] ]};
         fetched := ["/lookup/wards.json"] |}.
Proof.
  apply (load_composes sampleFetch ["/lookup/wards.json"]
           ["/lookup/names.json"] new).
  vm_compute. reflexivity.
Defined.

Lemma load_failure_keeps_earlier_witness :
  load sampleFetch
    (["/lookup/wards.json"] ++ "/lookup/missing.json" :: ["/lookup/names.json"])
    new
  = (Throw (TypeError "Failed to fetch"),
     {| lookup := {[ "E1" := ["Ward one"]; "E2" := ["Ward two"] ]};
        fetched := [] ++ ["/lookup/wards.json"] ++ ["/lookup/missing.json"] |}).
Proof.
  exact (load_failure_keeps_earlier sampleFetch ["/lookup/wards.json"]
           ["/lookup/names.json"] "/lookup/missing.json" new
           {| lookup := {[ "E1" := ["Ward one"]; "E2" := ["Ward two"] ]};
              fetched := ["/lookup/wards.json"] |}
           (TypeError "Failed to fetch") eq_refl eq_refl).
Defined.

Lemma load_keeps_codes_witness :
  is_Some
    (get "E2"
       (load sampleFetch ["/lookup/names.json"; "/lookup/missing.json"]
          {| lookup := {[ "E2" := ["Ward two"] ]}; fetched := [] |}).2).
Proof.
  apply (load_keeps_codes sampleFetch). by eexists.
Defined.

End CodeLookupFacts.

(** ** More on the storage item *)

Module StorageItemMoreFacts.
Import Js StorageItem StorageSamples.

Section Storage.
Context {Json : Type}.
Context (JSON_stringify : Json -> option string).
Context (JSON_parse : string -> Result Json).

Local Abbreviation set := (set JSON_stringify).
Local Abbreviation get := (get JSON_parse).

(** X20: items of different keys do not interfere: a [set] or a [clear] of
    one leaves what [get] of the other returns (a value or its exception)
    as it is; items of the same key are one item. *)
Theorem items_independent (it it' : StorageItem) (data : Json)
    (st : gmap string string) :
  key it <> key it' ->
  get it' (set it data st) = get it' st
  /\ get it' (clear it st) = get it' st
  /\ (∀ it2, key it2 = key it -> get it2 (set it data st) = get it (set it data st)).
Proof.
  intros Hne. split; [|split].
  - by apply StorageItemFacts.get_set_other.
  - by apply StorageItemFacts.get_clear_other.
  - intros it2 E. unfold StorageItem.get. by rewrite E.
Qed.

(** X21: [set] of a value that [JSON.stringify] answers with [undefined]
    does not fail; it stores the text [undefined], and the [get] that
    follows ends with the exception [JSON.parse] throws on that text,
    instead of returning a value. *)
Theorem set_unserializable (it : StorageItem) (data : Json)
    (st : gmap string string) (e : Error) :
  JSON_stringify data = None ->
  JSON_parse "undefined" = Throw e ->
  set it data st !! key it = Some "undefined"
  /\ get it (set it data st) = Throw e.
Proof.
  intros Hs Hp. split.
  - unfold StorageItem.set. by rewrite lookup_insert_eq, Hs.
  - by rewrite (StorageItemFacts.get_set_undefined _ _ _ _ _ Hs).
Qed.

End Storage.

(** The theorems with the sample JSON fragment. *)
Lemma items_independent_witness :
  get sampleParse {| key := "visits" |}
    (set sampleStringify {| key := "theme" |} (JBool true) {[ "visits" := "42" ]})
  = get sampleParse {| key := "visits" |} {[ "visits" := "42" ]}.
Proof.
  apply (items_independent sampleStringify sampleParse
           {| key := "theme" |} {| key := "visits" |}).
  discriminate.
Defined.

Lemma set_unserializable_witness :
  get parseDefined {| key := "k" |}
    (set stringifyOrUndefined {| key := "k" |} None ∅)
  = Throw (SyntaxError "Unexpected token").
Proof.
  apply (set_unserializable stringifyOrUndefined parseDefined
           {| key := "k" |} None ∅); reflexivity.
Defined.

End StorageItemMoreFacts.
